(** * SPMD rule primitives of [paddle/fluid/distributed/auto_parallel/spmd_rules/common.cc]

    A shallow embedding of the sharding-merge helpers used by the
    auto-parallel SPMD rules, together with the properties that hold of
    them.  Every definition follows one function (or one loop) of the
    C++ source; the line numbers quoted are those of [common.cc]. *)

From Stdlib Require Import ZArith String Ascii List.
From stdpp Require Import gmap strings list fin_maps.

Local Open Scope string_scope.
Local Open Scope Z_scope.
Local Open Scope list_scope.

(** ** Errors

    [PADDLE_THROW(phi::errors::Unimplemented(fmt, args...))] raises an
    exception that carries the printf-style format string and its
    arguments; [std::string::substr] raises [std::out_of_range] when the
    start position lies beyond the end of the string. *)

Inductive fmt_arg : Type :=
| ArgStr (s : string)
| ArgInt (z : Z).

Inductive error : Type :=
| Unimplemented (fmt : string) (args : list fmt_arg)
| std_out_of_range.

Inductive result (A : Type) : Type :=
| Ok (a : A)
| Err (e : error).

Arguments Ok {A} a.
Arguments Err {A} e.

Definition bind {A B : Type} (r : result A) (k : A -> result B) : result B :=
  match r with
  | Ok a => k a
  | Err e => Err e
  end.

Notation "x <- r ;; k" := (bind r (fun x => k))
  (at level 100, r at next level, right associativity).

Definition failed {A : Type} (r : result A) : Prop := exists e, r = Err e.

(** ** Strings

    [s.substr(pos, len)]: the characters of [s] from [pos], at most [len]
    of them; the empty string when [pos = s.size()]; an exception when
    [pos > s.size()]. *)

Definition substr (s : string) (pos len : nat) : result string :=
  if decide (pos <= String.length s)%nat
  then Ok (substring pos len s)
  else Err std_out_of_range.

(** [s.find(sub)]: the position of the first occurrence of [sub] in [s],
    [None] standing for [std::string::npos]. *)

Definition find (s sub : string) : option nat := index 0 sub s.

(** ** ShardingMergeForAxis (lines 87-108)

    Mesh dimensions are [int64_t] values that the code only compares and
    copies, so they are integers of [Z] here; [-1] marks a replicated
    axis. *)

Definition conflict_fmt : string :=
  "Tensor Axis[%s] is Sharded by two different mesh dimension [%d] and [%d].".

Definition ShardingMergeForAxis (axis : string) (mesh_dim1 mesh_dim2 : Z)
  : result Z :=
  if decide (mesh_dim1 <> mesh_dim2) then
    if decide (mesh_dim1 = -1) then Ok mesh_dim2
    else if decide (mesh_dim2 = -1) then Ok mesh_dim1
    else Err (Unimplemented conflict_fmt
                [ArgStr axis; ArgInt mesh_dim1; ArgInt mesh_dim2])
  else Ok mesh_dim1.

(** ** ShardingMergeForTensors (lines 37-81) *)

(** [std::unordered_map::insert]: adds the binding only when the key has
    none yet; a present key keeps its value. *)

Definition umap_insert `{Countable K} {V : Type} (k : K) (v : V)
    (m : gmap K V) : gmap K V :=
  match m !! k with
  | Some _ => m
  | None => <[k := v]> m
  end.

(** The two local maps of the function: [axis_to_dim_map] and
    [dim_to_axis_map]. *)

Record merge_state : Type := MergeState {
  axis_to_dim_map : gmap string Z;
  dim_to_axis_map : gmap Z string
}.

Definition init_state : merge_state := MergeState ∅ ∅.

(** The body of the inner loop (lines 49-61), for one tensor axis and its
    mesh dimension. *)

Definition merge_axis (tensor_axis : string) (mesh_dim : Z) (st : merge_state)
  : result merge_state :=
  merge_dim <-
    match axis_to_dim_map st !! tensor_axis with
    | None => Ok mesh_dim
    | Some recorded => ShardingMergeForAxis tensor_axis mesh_dim recorded
    end;;
  let a2d := umap_insert tensor_axis merge_dim (axis_to_dim_map st) in
  let d2a :=
    match dim_to_axis_map st !! merge_dim with
    | None => <[merge_dim := tensor_axis]> (dim_to_axis_map st)
    | Some axes => <[merge_dim := axes +:+ tensor_axis]> (dim_to_axis_map st)
    end in
  Ok (MergeState a2d d2a).

(** The inner loop (lines 45-62): [i] runs over the positions of the
    sharding vector [pair.second]; [dims] is what remains of it from
    position [i] on. *)

Fixpoint merge_tensor (notation : string) (i : nat) (dims : list Z)
    (st : merge_state) : result merge_state :=
  match dims with
  | [] => Ok st
  | mesh_dim :: rest =>
      tensor_axis <- substr notation i 1;;
      st' <- merge_axis tensor_axis mesh_dim st;;
      merge_tensor notation (S i) rest st'
  end.

(** The outer loop (lines 44-63). *)

Fixpoint merge_tensors (pairs : list (string * list Z)) (st : merge_state)
  : result merge_state :=
  match pairs with
  | [] => Ok st
  | (notation, dims) :: rest =>
      st' <- merge_tensor notation 0 dims st;;
      merge_tensors rest st'
  end.

(** The inner loop of the conflict pass (lines 74-76): every axis of the
    claim string but the first is assigned [-1]. *)

Definition demote_from (axes : string) (positions : list nat)
    (a2d : gmap string Z) : gmap string Z :=
  foldl (fun m i => <[substring i 1 axes := -1]> m) a2d positions.

Definition demote (axes : string) (a2d : gmap string Z) : gmap string Z :=
  if decide (1 < String.length axes)%nat
  then demote_from axes (seq 1 (String.length axes - 1)) a2d
  else a2d.

(** The conflict pass (lines 69-78) over the entries of
    [dim_to_axis_map] in the order [entries]. *)

Definition resolve_conflicts (entries : list (Z * string))
    (a2d : gmap string Z) : gmap string Z :=
  foldl (fun m it => demote it.2 m) a2d entries.

Definition ShardingMergeForTensors
    (tensor_notation_to_dim_pairs : list (string * list Z))
  : result (gmap string Z) :=
  st <- merge_tensors tensor_notation_to_dim_pairs init_state;;
  Ok (resolve_conflicts (map_to_list (dim_to_axis_map st))
        (axis_to_dim_map st)).

(** ** ResoluteOutputPartialDimension (lines 120-133)

    The loop over the entries of [in_axis_to_dim_map], in the order
    [entries] in which the unordered map enumerates them. *)

Definition partial_dims_loop (entries : list (string * Z)) (out_axis : string)
  : list Z :=
  foldl (fun partial_on_dims it =>
           match find out_axis it.1 with
           | Some _ =>
               if decide (it.2 > -1) then partial_on_dims ++ [it.2]
               else partial_on_dims
           | None => partial_on_dims
           end) [] entries.

Definition ResoluteOutputPartialDimension (in_axis_to_dim_map : gmap string Z)
    (out_axis : string) : list Z :=
  partial_dims_loop (map_to_list in_axis_to_dim_map) out_axis.

(** ** CopyTensorDistAttrForOutput (lines 110-118) *)

Section DistAttr.
(** The device mesh is owned elsewhere; [default_mesh] is the
    default-constructed [ProcessMesh]. *)
Context {ProcessMesh : Type} (default_mesh : ProcessMesh).

(** Modelled from the spec: the class [TensorDistAttr] (declared in
    [dist_attr.h], not part of this file) as a record of the fields the
    data model lists for a tensor's distribution attributes: mesh
    reference, sharding vector, batch-dimension marker,
    dynamic-dimension flags, partial-dimension set and the annotated
    flag; each [set_x] writes one field and each getter reads it. *)
Record TensorDistAttr : Type := mkTensorDistAttr {
  process_mesh : ProcessMesh;
  dims_mapping : list Z;
  batch_dim : Z;
  dynamic_dims : list bool;
  partial_dims : list Z;
  annotated : bool
}.

Definition TensorDistAttr_default : TensorDistAttr :=
  mkTensorDistAttr default_mesh [] 0 [] [] false.

Definition set_process_mesh (m : ProcessMesh) (a : TensorDistAttr) :=
  mkTensorDistAttr m (dims_mapping a) (batch_dim a) (dynamic_dims a)
    (partial_dims a) (annotated a).

Definition set_batch_dim (b : Z) (a : TensorDistAttr) :=
  mkTensorDistAttr (process_mesh a) (dims_mapping a) b (dynamic_dims a)
    (partial_dims a) (annotated a).

Definition set_dynamic_dims (d : list bool) (a : TensorDistAttr) :=
  mkTensorDistAttr (process_mesh a) (dims_mapping a) (batch_dim a) d
    (partial_dims a) (annotated a).

Definition set_annotated (b : bool) (a : TensorDistAttr) :=
  mkTensorDistAttr (process_mesh a) (dims_mapping a) (batch_dim a)
    (dynamic_dims a) (partial_dims a) b.

(** The two objects the body works on: the argument, reached through a
    const reference, and the local [new_dist_attr]. *)
Record frame : Type := Frame {
  src_dist_attr : TensorDistAttr;
  new_dist_attr : TensorDistAttr
}.

(** A statement [new_dist_attr.set_x(src_dist_attr.x())] or
    [new_dist_attr.set_x(constant)]: the setter is applied to the local
    with a value read from the frame. *)
Definition call_on_new {A : Type} (setter : A -> TensorDistAttr -> TensorDistAttr)
    (arg : frame -> A) (f : frame) : frame :=
  Frame (src_dist_attr f) (setter (arg f) (new_dist_attr f)).

(** The frame when the function returns. *)
Definition CopyTensorDistAttrForOutput_frame (src : TensorDistAttr) : frame :=
  let f := Frame src TensorDistAttr_default in
  let f := call_on_new set_process_mesh (fun f => process_mesh (src_dist_attr f)) f in
  let f := call_on_new set_batch_dim (fun f => batch_dim (src_dist_attr f)) f in
  let f := call_on_new set_dynamic_dims (fun f => dynamic_dims (src_dist_attr f)) f in
  let f := call_on_new set_annotated (fun _ => false) f in
  f.

Definition CopyTensorDistAttrForOutput (src : TensorDistAttr) : TensorDistAttr :=
  new_dist_attr (CopyTensorDistAttrForOutput_frame src).

(** Modelled from the spec: the class [DistTensorSpec] (declared in
    [dist_tensor_spec.h]) pairs a tensor's shape with its distribution
    attributes. *)
Record DistTensorSpec : Type := mkDistTensorSpec {
  shape : list Z;
  dist_attr : TensorDistAttr
}.
End DistAttr.

Arguments TensorDistAttr : clear implicits.
Arguments DistTensorSpec : clear implicits.
Arguments frame : clear implicits.

(** ** SPMDRuleBase (lines 21-35)

    The two virtual methods of the base class. *)

Module SPMDRuleBase.
Section Methods.
Context {ProcessMesh Attribute : Type}.

Definition InferForward_msg : string :=
  "InferForward should be called from a derived class of SPMDRuleBase !".

Definition InferBackward_msg : string :=
  "InferBackward should be called from a derived class of SPMDRuleBase !".

Definition InferForward (input_specs : list (DistTensorSpec ProcessMesh))
    (attrs : gmap string Attribute)
  : result (list (DistTensorSpec ProcessMesh)) :=
  Err (Unimplemented InferForward_msg []).

Definition InferBackward (output_specs : list (DistTensorSpec ProcessMesh))
    (attrs : gmap string Attribute)
  : result (list (DistTensorSpec ProcessMesh)) :=
  Err (Unimplemented InferBackward_msg []).
End Methods.
End SPMDRuleBase.

(** ** Notions used to state the properties *)

(** An enumeration of an unordered map: its entries in some order. *)

Definition enumerates `{Countable K} {V : Type} (entries : list (K * V))
    (m : gmap K V) : Prop :=
  entries ≡ₚ map_to_list m.

(** The (axis, mesh dimension) positions the loops visit, in input
    order. *)

Fixpoint positions_from (notation : string) (i : nat) (dims : list Z)
  : list (string * Z) :=
  match dims with
  | [] => []
  | mesh_dim :: rest =>
      (substring i 1 notation, mesh_dim) :: positions_from notation (S i) rest
  end.

Definition positions (pairs : list (string * list Z)) : list (string * Z) :=
  flat_map (fun pair => positions_from pair.1 0 pair.2) pairs.

(** The inner-loop body folded over a list of positions. *)

Fixpoint merge_positions (ps : list (string * Z)) (st : merge_state)
  : result merge_state :=
  match ps with
  | [] => Ok st
  | (tensor_axis, mesh_dim) :: rest =>
      st' <- merge_axis tensor_axis mesh_dim st;;
      merge_positions rest st'
  end.

(** The mesh dimension carried by the first occurrence of an axis. *)

Fixpoint first_dim (axis : string) (ps : list (string * Z)) : option Z :=
  match ps with
  | [] => None
  | (a, d) :: rest => if decide (a = axis) then Some d else first_dim axis rest
  end.

(** What is recorded for [axis] once the positions [ps] have been merged
    into a map that started as [a2d]. *)

Definition recorded_after (a2d : gmap string Z) (ps : list (string * Z))
    (axis : string) : option Z :=
  match a2d !! axis with
  | Some d => Some d
  | None => first_dim axis ps
  end.

(** An input is well formed when every notation is as long as its
    sharding vector and every mesh dimension is an index or [-1]. *)

Definition well_formed (pairs : list (string * list Z)) : Prop :=
  Forall (fun pair => String.length pair.1 = length pair.2
                      /\ Forall (fun d => -1 <= d) pair.2) pairs.

(** Some axis first occurs with a mesh dimension [d1 <> -1] and occurs
    later with another [d2 <> -1]. *)

Definition clash (ps : list (string * Z)) : Prop :=
  exists pre axis d1 mid d2 post,
    ps = pre ++ (axis, d1) :: mid ++ (axis, d2) :: post
    /\ (axis ∉ pre.*1) /\ d1 <> -1 /\ d2 <> -1 /\ d1 <> d2.

(** The same with concrete read as non-negative. *)

Definition conflicting (ps : list (string * Z)) : Prop :=
  exists pre axis d1 mid d2 post,
    ps = pre ++ (axis, d1) :: mid ++ (axis, d2) :: post
    /\ (axis ∉ pre.*1) /\ 0 <= d1 /\ 0 <= d2 /\ d1 <> d2.

(** [axis] stands in a claim string at a position other than the first:
    the conflict pass assigns it [-1]. *)

Definition demoted_by (axes axis : string) : Prop :=
  Exists (fun i => substring i 1 axes = axis) (seq 1 (String.length axes - 1)).

Definition demoted (d2a : gmap Z string) (axis : string) : Prop :=
  exists d axes, d2a !! d = Some axes /\ demoted_by axes axis.

(** The entries the partial-dimension loop pushes: the axis is found in
    [out_axis] and the mesh dimension is greater than [-1]. *)

Definition selected (out_axis : string) (it : string * Z) : Prop :=
  is_Some (find out_axis it.1) /\ it.2 > -1.

(** Both are decidable. *)

#[local] Instance demoted_by_dec axes axis : Decision (demoted_by axes axis).
Proof. unfold demoted_by. apply _. Defined.

#[local] Instance selected_dec out_axis it : Decision (selected out_axis it).
Proof. unfold selected. apply _. Defined.

(** Every sharding vector is at most as long as its notation, so that
    every position visited carries a one-character axis. *)

Definition in_range (pairs : list (string * list Z)) : Prop :=
  Forall (fun pair => (length pair.2 <= String.length pair.1)%nat) pairs.

(** No sharding vector is more than one entry longer than its notation:
    [substr] is never asked for a position beyond the end. *)

Definition near_range (pairs : list (string * list Z)) : Prop :=
  Forall (fun pair => (length pair.2 <= S (String.length pair.1))%nat) pairs.

(** [axis] stands at position [i] of the claim string [axes]. *)

Definition occurs (axes : string) (i : nat) (axis : string) : Prop :=
  (i < String.length axes)%nat /\ substring i 1 axes = axis.

(** What links the two maps during the first pass on one-character
    axes: an axis recorded with a mesh dimension stands in the claim
    string of that dimension, and no claim string is empty. *)

Record linked (st : merge_state) : Prop := Linked {
  linked_claimed : forall axis d,
    axis_to_dim_map st !! axis = Some d ->
    exists axes i, dim_to_axis_map st !! d = Some axes /\ occurs axes i axis;
  linked_nonempty : forall d axes,
    dim_to_axis_map st !! d = Some axes -> (0 < String.length axes)%nat
}.

(** Every character of a claim string is a recorded axis. *)

Definition claims_recorded (st : merge_state) : Prop :=
  forall d axes i a,
    dim_to_axis_map st !! d = Some axes -> occurs axes i a ->
    is_Some (axis_to_dim_map st !! a).

(** * Properties *)

(** ** The error monad *)

Lemma bind_Ok {A B : Type} (r : result A) (k : A -> result B) (b : B) :
  bind r k = Ok b <-> exists a, r = Ok a /\ k a = Ok b.
Proof.
  destruct r as [a|e]; simpl; split.
  - intros Hk. exists a. auto.
  - intros (a' & Ha & Hk). congruence.
  - discriminate.
  - intros (a' & Ha & _). discriminate.
Qed.

Lemma failed_Ok {A : Type} (a : A) : ~ failed (Ok a).
Proof. intros [e He]. discriminate. Qed.

Lemma failed_Err {A : Type} (e : error) : failed (@Err A e).
Proof. exists e. reflexivity. Qed.

Lemma not_failed {A : Type} (r : result A) : ~ failed r -> exists a, r = Ok a.
Proof.
  destruct r as [a|e]; intros Hr; [eauto|].
  exfalso. apply Hr, failed_Err.
Qed.

#[local] Hint Resolve failed_Err : core.

(** ** The pairwise rule *)

Lemma ShardingMergeForAxis_same axis d : ShardingMergeForAxis axis d d = Ok d.
Proof. unfold ShardingMergeForAxis. case_decide; congruence. Qed.

Lemma ShardingMergeForAxis_replicated_l axis d :
  ShardingMergeForAxis axis (-1) d = Ok d.
Proof. unfold ShardingMergeForAxis. repeat case_decide; congruence. Qed.

Lemma ShardingMergeForAxis_replicated_r axis d :
  ShardingMergeForAxis axis d (-1) = Ok d.
Proof. unfold ShardingMergeForAxis. repeat case_decide; congruence. Qed.

Lemma ShardingMergeForAxis_clash axis d1 d2 :
  d1 <> d2 -> d1 <> -1 -> d2 <> -1 ->
  ShardingMergeForAxis axis d1 d2
  = Err (Unimplemented conflict_fmt [ArgStr axis; ArgInt d1; ArgInt d2]).
Proof. intros. unfold ShardingMergeForAxis. repeat case_decide; congruence. Qed.

Lemma ShardingMergeForAxis_failed axis d1 d2 :
  failed (ShardingMergeForAxis axis d1 d2) <-> d1 <> d2 /\ d1 <> -1 /\ d2 <> -1.
Proof.
  split.
  - unfold ShardingMergeForAxis.
    repeat case_decide; intros Hf; try (by apply failed_Ok in Hf); auto.
  - intros (? & ? & ?). rewrite ShardingMergeForAxis_clash by done. auto.
Qed.

(** ** One step of the first pass *)

Lemma umap_insert_lookup `{Countable K} {V : Type} (k k' : K) (v : V)
    (m : gmap K V) :
  umap_insert k v m !! k'
  = match m !! k' with
    | Some w => Some w
    | None => if decide (k = k') then Some v else None
    end.
Proof.
  unfold umap_insert. destruct (m !! k) as [w|] eqn:Hk.
  - destruct (m !! k') eqn:Hk'; [done|]. case_decide; congruence.
  - rewrite lookup_insert. case_decide; subst.
    + by rewrite Hk.
    + by destruct (m !! k').
Qed.

Lemma merge_axis_failed axis d st :
  failed (merge_axis axis d st)
  <-> exists r, axis_to_dim_map st !! axis = Some r
             /\ d <> r /\ d <> -1 /\ r <> -1.
Proof.
  unfold merge_axis. destruct (axis_to_dim_map st !! axis) as [r|]; simpl.
  - destruct (ShardingMergeForAxis axis d r) as [md|e] eqn:Hm; simpl.
    + split; [intros Hf; by apply failed_Ok in Hf|].
      intros (r' & [= <-] & Hc).
      apply (ShardingMergeForAxis_failed axis) in Hc. rewrite Hm in Hc.
      by apply failed_Ok in Hc.
    + split; [|auto]. intros _. exists r. split; [done|].
      apply (ShardingMergeForAxis_failed axis). rewrite Hm. auto.
  - split; [intros Hf; by apply failed_Ok in Hf|].
    intros (r & [=] & _).
Qed.

Lemma merge_axis_recorded axis d st st' a :
  merge_axis axis d st = Ok st' ->
  axis_to_dim_map st' !! a = recorded_after (axis_to_dim_map st) [(axis, d)] a.
Proof.
  unfold merge_axis, recorded_after. intros Hm.
  apply bind_Ok in Hm as (md & Hmd & [= <-]). simpl.
  rewrite umap_insert_lookup.
  destruct (axis_to_dim_map st !! a) as [w|] eqn:Ha; [done|].
  case_decide; [subst|done].
  rewrite Ha in Hmd. congruence.
Qed.

(** ** The first pass as a fold over positions *)

Lemma merge_positions_app ps qs st :
  merge_positions (ps ++ qs) st
  = (st' <- merge_positions ps st;; merge_positions qs st').
Proof.
  revert st. induction ps as [|[a d] ps IH]; intros st; simpl; [done|].
  destruct (merge_axis a d st) as [st1|e]; simpl; [apply IH|done].
Qed.

Lemma substr_Ok s pos len t : substr s pos len = Ok t -> t = substring pos len s.
Proof. unfold substr. case_decide; congruence. Qed.

Lemma substr_in_range s pos len :
  (pos <= String.length s)%nat -> substr s pos len = Ok (substring pos len s).
Proof. intros. unfold substr. by case_decide. Qed.

Lemma merge_tensor_positions_Ok notation i dims st st' :
  merge_tensor notation i dims st = Ok st' ->
  merge_positions (positions_from notation i dims) st = Ok st'.
Proof.
  revert i st. induction dims as [|d dims IH]; intros i st; simpl; [done|].
  intros H. apply bind_Ok in H as (axis & Haxis & H).
  apply substr_Ok in Haxis as ->.
  destruct (merge_axis _ d st) as [st1|e]; simpl in *; [by apply IH|done].
Qed.

Lemma merge_tensor_positions notation i dims st :
  (i + length dims <= String.length notation)%nat ->
  merge_tensor notation i dims st
  = merge_positions (positions_from notation i dims) st.
Proof.
  revert i st. induction dims as [|d dims IH]; intros i st Hlen; simpl in *;
    [done|].
  rewrite substr_in_range by lia. simpl.
  destruct (merge_axis _ d st) as [st1|e]; simpl; [|done].
  apply IH. lia.
Qed.

Lemma merge_tensors_positions_Ok pairs st st' :
  merge_tensors pairs st = Ok st' ->
  merge_positions (positions pairs) st = Ok st'.
Proof.
  revert st. induction pairs as [|[n dims] pairs IH]; intros st; simpl; [done|].
  intros H. apply bind_Ok in H as (st1 & H1 & H).
  apply merge_tensor_positions_Ok in H1.
  unfold positions in *. simpl. rewrite merge_positions_app, H1. simpl. by apply IH.
Qed.

Lemma merge_tensors_positions pairs st :
  well_formed pairs ->
  merge_tensors pairs st = merge_positions (positions pairs) st.
Proof.
  intros Hwf. revert st.
  induction Hwf as [|[n dims] pairs [Hlen _] _ IH]; intros st; simpl; [done|].
  unfold positions in *. simpl in *.
  rewrite merge_positions_app, merge_tensor_positions by lia.
  destruct (merge_positions _ st); simpl; [apply IH|done].
Qed.

(** ** What the first pass records *)

Lemma recorded_after_cons a2d axis d st' ps a :
  (forall b, axis_to_dim_map st' !! b = recorded_after a2d [(axis, d)] b) ->
  recorded_after (axis_to_dim_map st') ps a
  = recorded_after a2d ((axis, d) :: ps) a.
Proof.
  intros Hst. unfold recorded_after in *. rewrite Hst. simpl.
  destruct (a2d !! a); [done|]. by case_decide.
Qed.

Lemma merge_positions_recorded ps st st' a :
  merge_positions ps st = Ok st' ->
  axis_to_dim_map st' !! a = recorded_after (axis_to_dim_map st) ps a.
Proof.
  revert st. induction ps as [|[axis d] ps IH]; intros st; simpl.
  - intros [= <-]. unfold recorded_after. simpl. by destruct (_ !! a).
  - intros H. apply bind_Ok in H as (st1 & H1 & H).
    rewrite (IH _ H).
    apply recorded_after_cons. intros b. by apply merge_axis_recorded.
Qed.

Lemma first_dim_Some axis ps d :
  first_dim axis ps = Some d
  <-> exists pre post, ps = pre ++ (axis, d) :: post /\ axis ∉ pre.*1.
Proof.
  induction ps as [|[a e] ps IH]; simpl.
  - split; [done|]. intros (pre & post & H & _). by destruct pre.
  - case_decide as Ha.
    + subst a. split.
      * intros [= ->]. exists [], ps. split; [done|]. simpl. apply not_elem_of_nil.
      * intros (pre & post & H & Hpre). destruct pre as [|[a' e'] pre]; simpl in *.
        { congruence. }
        { injection H as -> -> _. exfalso. apply Hpre. left. }
    + rewrite IH. split.
      * intros (pre & post & -> & Hpre). exists ((a, e) :: pre), post.
        split; [done|]. simpl. rewrite not_elem_of_cons. auto.
      * intros (pre & post & H & Hpre). destruct pre as [|[a' e'] pre]; simpl in *.
        { congruence. }
        { injection H as -> -> ->. exists pre, post. split; [done|].
          rewrite not_elem_of_cons in Hpre. tauto. }
Qed.

Lemma first_dim_None axis ps : first_dim axis ps = None <-> axis ∉ ps.*1.
Proof.
  induction ps as [|[a e] ps IH]; simpl.
  - split; [intros _; apply not_elem_of_nil|done].
  - rewrite not_elem_of_cons. case_decide; [subst|]; split; try done.
    + intros [? _]. done.
    + intros. split; [congruence|]. by apply IH.
    + intros [_ ?]. by apply IH.
Qed.

(** ** When the first pass fails *)

Lemma merge_positions_failed ps st :
  failed (merge_positions ps st)
  <-> exists pre axis d post r,
        ps = pre ++ (axis, d) :: post
        /\ recorded_after (axis_to_dim_map st) pre axis = Some r
        /\ d <> r /\ d <> -1 /\ r <> -1.
Proof.
  revert st. induction ps as [|[a0 d0] ps IH]; intros st; simpl.
  - split; [intros Hf; by apply failed_Ok in Hf|].
    intros (pre & ? & ? & ? & ? & H & _). by destruct pre.
  - destruct (merge_axis a0 d0 st) as [st1|e] eqn:H1; simpl.
    + rewrite IH. split.
      * intros (pre & axis & d & post & r & -> & Hr & Hc).
        exists ((a0, d0) :: pre), axis, d, post, r. split; [done|].
        split; [|done]. rewrite <- Hr. symmetry.
        apply recorded_after_cons. intros b. by apply merge_axis_recorded.
      * intros (pre & axis & d & post & r & Hps & Hr & Hc).
        destruct pre as [|[a' d'] pre]; simpl in *.
        { injection Hps as <- <- <-.
          assert (failed (merge_axis a0 d0 st)) as Hf.
          { apply merge_axis_failed. exists r. split; [|done].
            unfold recorded_after in Hr. simpl in Hr.
            by destruct (axis_to_dim_map st !! a0). }
          rewrite H1 in Hf. by apply failed_Ok in Hf. }
        { injection Hps as <- <- ->.
          exists pre, axis, d, post, r. split; [done|]. split; [|done].
          rewrite <- Hr. apply recorded_after_cons.
          intros b. by apply merge_axis_recorded. }
    + split; [|auto]. intros _.
      assert (failed (merge_axis a0 d0 st)) as Hf by (rewrite H1; auto).
      apply merge_axis_failed in Hf as (r & Hr & Hc).
      exists [], a0, d0, ps, r. split; [done|]. split; [|done].
      unfold recorded_after. by rewrite Hr.
Qed.

Lemma merge_positions_failed_init ps :
  failed (merge_positions ps init_state) <-> clash ps.
Proof.
  rewrite merge_positions_failed. unfold clash, recorded_after. simpl.
  setoid_rewrite lookup_empty. split.
  - intros (pre & axis & d & post & r & -> & Hr & Hd & ? & ?).
    apply first_dim_Some in Hr as (p1 & p2 & -> & Hp1).
    exists p1, axis, r, p2, d, post. rewrite <- app_assoc. simpl.
    repeat split; auto.
  - intros (pre & axis & d1 & mid & d2 & post & -> & Hpre & ? & ? & ?).
    exists (pre ++ (axis, d1) :: mid), axis, d2, post, d1.
    rewrite <- app_assoc. simpl. repeat split; auto.
    apply first_dim_Some. eauto.
Qed.

(** ** The conflict pass *)

Lemma demote_from_lookup axes l m a :
  demote_from axes l m !! a
  = if decide (Exists (fun i => substring i 1 axes = a) l)
    then Some (-1) else m !! a.
Proof.
  unfold demote_from. revert m. induction l as [|i l IH]; intros m; cbn [foldl].
  - rewrite decide_False; [done|]. by intros H%Exists_nil.
  - rewrite IH. destruct (decide (Exists _ l)) as [Hl|Hl].
    + rewrite decide_True; [done|]. by apply Exists_cons_tl.
    + rewrite lookup_insert. case_decide as Hi.
      * rewrite decide_True; [done|]. by apply Exists_cons_hd.
      * rewrite decide_False; [done|]. rewrite Exists_cons. tauto.
Qed.

Lemma demote_lookup axes m a :
  demote axes m !! a = if decide (demoted_by axes a) then Some (-1) else m !! a.
Proof.
  unfold demote. destruct (decide (1 < String.length axes)%nat) as [Hlen|Hlen].
  - rewrite demote_from_lookup. unfold demoted_by.
    by destruct (decide (Exists _ _)).
  - rewrite decide_False; [done|]. unfold demoted_by.
    replace (String.length axes - 1)%nat with 0%nat by lia. simpl.
    by intros H%Exists_nil.
Qed.

Lemma resolve_conflicts_lookup entries m a :
  resolve_conflicts entries m !! a
  = if decide (Exists (fun it : Z * string => demoted_by it.2 a) entries)
    then Some (-1) else m !! a.
Proof.
  unfold resolve_conflicts. revert m.
  induction entries as [|it entries IH]; intros m; cbn [foldl].
  - rewrite decide_False; [done|]. by intros H%Exists_nil.
  - rewrite IH. destruct (decide (Exists _ entries)) as [Hl|Hl].
    + rewrite decide_True; [done|]. by apply Exists_cons_tl.
    + rewrite demote_lookup. case_decide as Hi.
      * rewrite decide_True; [done|]. by apply Exists_cons_hd.
      * rewrite decide_False; [done|]. rewrite Exists_cons. tauto.
Qed.

Lemma demoted_enumeration entries d2a a :
  enumerates entries d2a ->
  Exists (fun it : Z * string => demoted_by it.2 a) entries <-> demoted d2a a.
Proof.
  unfold enumerates, demoted. intros Hperm. rewrite Exists_exists. split.
  - intros ([d axes] & Hin & Hd). rewrite Hperm in Hin.
    apply elem_of_map_to_list in Hin. eauto.
  - intros (d & axes & Hl & Hd). exists (d, axes). split; [|done].
    rewrite Hperm. by apply elem_of_map_to_list.
Qed.

(** The result of the conflict pass does not depend on the order in which
    the unordered map [dim_to_axis_map] is enumerated. *)

Lemma resolve_conflicts_enumeration entries d2a m :
  enumerates entries d2a ->
  resolve_conflicts entries m = resolve_conflicts (map_to_list d2a) m.
Proof.
  intros Hperm. apply map_eq. intros a. rewrite !resolve_conflicts_lookup.
  assert (enumerates (map_to_list d2a) d2a) as Hcanon by (unfold enumerates; done).
  pose proof (demoted_enumeration _ _ a Hperm).
  pose proof (demoted_enumeration _ _ a Hcanon).
  repeat case_decide; tauto.
Qed.

Lemma resolve_conflicts_demoted d2a m a :
  demoted d2a a -> resolve_conflicts (map_to_list d2a) m !! a = Some (-1).
Proof.
  intros Hd. rewrite resolve_conflicts_lookup, decide_True; [done|].
  eapply demoted_enumeration; [|done]. unfold enumerates. done.
Qed.

Lemma resolve_conflicts_kept d2a m a :
  ~ demoted d2a a -> resolve_conflicts (map_to_list d2a) m !! a = m !! a.
Proof.
  intros Hd. rewrite resolve_conflicts_lookup, decide_False; [done|].
  intros H. apply Hd. eapply demoted_enumeration; [|done]. unfold enumerates. done.
Qed.

(** ** The partial-dimension loop *)

Lemma partial_dims_loop_filter entries out_axis :
  partial_dims_loop entries out_axis = (filter (selected out_axis) entries).*2.
Proof.
  unfold partial_dims_loop.
  enough (forall acc,
    foldl (fun partial_on_dims (it : string * Z) =>
             match find out_axis it.1 with
             | Some _ => if decide (it.2 > -1) then partial_on_dims ++ [it.2]
                         else partial_on_dims
             | None => partial_on_dims
             end) acc entries
    = acc ++ (filter (selected out_axis) entries).*2) as H by apply (H []).
  induction entries as [|it entries IH]; intros acc; simpl.
  - by rewrite app_nil_r.
  - rewrite IH, filter_cons.
    destruct (decide (selected out_axis it)) as [[[n Hn] Hgt]|Hsel].
    + rewrite Hn, decide_True by done. simpl. by rewrite <- app_assoc.
    + destruct (find out_axis it.1) as [n|] eqn:Hf; [|done].
      rewrite decide_False; [done|].
      intros Hgt. apply Hsel. split; [rewrite Hf; eauto|done].
Qed.

(** ** Splitting the loops *)

Lemma merge_tensors_app before after st :
  merge_tensors (before ++ after) st
  = (st' <- merge_tensors before st;; merge_tensors after st').
Proof.
  revert st. induction before as [|[n dims] before IH]; intros st; simpl; [done|].
  destruct (merge_tensor n 0 dims st) as [st1|e]; simpl; [apply IH|done].
Qed.

Lemma merge_tensor_split notation i k dims st :
  merge_tensor notation i dims st
  = (st' <- merge_tensor notation i (take k dims) st;;
     merge_tensor notation (i + k) (drop k dims) st').
Proof.
  revert i dims st. induction k as [|k IH]; intros i dims st.
  - rewrite take_0, drop_0, Nat.add_0_r. done.
  - destruct dims as [|d dims]; [done|]. simpl.
    destruct (substr notation i 1) as [axis|e]; simpl; [|done].
    destruct (merge_axis axis d st) as [st1|e]; simpl; [|done].
    rewrite (IH (S i) dims st1). by rewrite Nat.add_succ_comm.
Qed.

Lemma merge_tensor_at notation i dims st0 st axis mesh_dim :
  merge_tensor notation 0 (take i dims) st0 = Ok st ->
  substr notation i 1 = Ok axis ->
  dims !! i = Some mesh_dim ->
  merge_tensor notation 0 dims st0
  = (st' <- merge_axis axis mesh_dim st;;
     merge_tensor notation (S i) (drop (S i) dims) st').
Proof.
  intros Hpre Haxis Hdim.
  rewrite (merge_tensor_split notation 0 i dims st0), Hpre. simpl.
  rewrite (drop_S _ _ _ Hdim). simpl. by rewrite Haxis.
Qed.

(** C6. The pairwise rule applied to two different non-negative mesh
    dimensions fails with the error that carries the axis and both
    dimensions; and when a position of the input meets such a recorded
    value, the whole of [ShardingMergeForTensors] ends with that error: no
    map is returned. *)
Theorem conflict_aborts_merge :
  (forall axis d1 d2,
      0 <= d1 -> 0 <= d2 -> d1 <> d2 ->
      ShardingMergeForAxis axis d1 d2
      = Err (Unimplemented conflict_fmt [ArgStr axis; ArgInt d1; ArgInt d2]))
  /\ (forall before notation dims after i st0 st axis mesh_dim recorded,
         merge_tensors before init_state = Ok st0 ->
         merge_tensor notation 0 (take i dims) st0 = Ok st ->
         substr notation i 1 = Ok axis ->
         dims !! i = Some mesh_dim ->
         axis_to_dim_map st !! axis = Some recorded ->
         0 <= mesh_dim -> 0 <= recorded -> mesh_dim <> recorded ->
         ShardingMergeForTensors (before ++ (notation, dims) :: after)
         = Err (Unimplemented conflict_fmt
                  [ArgStr axis; ArgInt mesh_dim; ArgInt recorded])).
Proof.
  split.
  - intros axis d1 d2 H1 H2 Hne. apply ShardingMergeForAxis_clash; lia.
  - intros before notation dims after i st0 st axis mesh_dim recorded
      Hbefore Hpre Haxis Hdim Hrec Hm Hr Hne.
    unfold ShardingMergeForTensors.
    rewrite merge_tensors_app, Hbefore. simpl.
    rewrite (merge_tensor_at _ _ _ _ _ _ _ Hpre Haxis Hdim).
    unfold merge_axis. rewrite Hrec.
    rewrite ShardingMergeForAxis_clash by lia. done.
Qed.

Lemma conflict_aborts_merge_witness :
  ShardingMergeForAxis "i" 1 0
  = Err (Unimplemented conflict_fmt [ArgStr "i"; ArgInt 1; ArgInt 0])
  /\ ShardingMergeForTensors [("ij", [0; -1]); ("ji", [-1; 1]); ("j", [2])]
     = Err (Unimplemented conflict_fmt [ArgStr "i"; ArgInt 1; ArgInt 0]).
Proof.
  split.
  - apply (proj1 conflict_aborts_merge); lia.
  - apply (proj2 conflict_aborts_merge
             [("ij", [0; -1])] "ji" [-1; 1] [("j", [2])] 1%nat
             (MergeState (list_to_map [("i", 0); ("j", -1)])
                         (list_to_map [(0, "i"); (-1, "j")]))
             (MergeState (list_to_map [("i", 0); ("j", -1)])
                         (list_to_map [(0, "i"); (-1, "jj")]))
             "i" 1 0);
      try reflexivity; lia.
Defined.

(** ** The returned map *)

Lemma ShardingMergeForTensors_Ok pairs m :
  ShardingMergeForTensors pairs = Ok m
  <-> exists st, merge_tensors pairs init_state = Ok st
              /\ m = resolve_conflicts (map_to_list (dim_to_axis_map st))
                       (axis_to_dim_map st).
Proof.
  unfold ShardingMergeForTensors. rewrite bind_Ok.
  split; intros (st & Hst & H); exists st; split; congruence.
Qed.

Lemma ShardingMergeForTensors_failed pairs :
  failed (ShardingMergeForTensors pairs)
  <-> failed (merge_tensors pairs init_state).
Proof.
  unfold ShardingMergeForTensors.
  destruct (merge_tensors pairs init_state) as [st|e]; simpl; [|done].
  split; intros Hf; by apply failed_Ok in Hf.
Qed.

Lemma merge_tensors_recorded pairs st axis :
  merge_tensors pairs init_state = Ok st ->
  axis_to_dim_map st !! axis = first_dim axis (positions pairs).
Proof.
  intros Hst. apply merge_tensors_positions_Ok in Hst.
  rewrite (merge_positions_recorded _ _ _ axis Hst).
  unfold recorded_after. simpl. by rewrite lookup_empty.
Qed.

(** C7. When the merge returns a map, the first pass has recorded for
    every axis the mesh dimension of its first occurrence in input order,
    and the returned map holds [-1] for the axes the conflict pass demoted
    and that first-occurrence value for all others.  A step of the first
    pass never changes a value already recorded, even where the pairwise
    rule yields another one: an axis first seen with [-1] and then with
    mesh dimension [0] is returned with [-1]. *)
Theorem first_occurrence_is_recorded :
  (forall pairs m,
      ShardingMergeForTensors pairs = Ok m ->
      exists st,
        merge_tensors pairs init_state = Ok st
        /\ (forall axis,
               axis_to_dim_map st !! axis = first_dim axis (positions pairs))
        /\ (forall axis,
               demoted (dim_to_axis_map st) axis -> m !! axis = Some (-1))
        /\ (forall axis,
               ~ demoted (dim_to_axis_map st) axis ->
               m !! axis = first_dim axis (positions pairs))
        /\ (forall axis v,
               m !! axis = Some v ->
               first_dim axis (positions pairs) = Some v \/ v = -1))
  /\ (forall axis mesh_dim st st' recorded,
         merge_axis axis mesh_dim st = Ok st' ->
         axis_to_dim_map st !! axis = Some recorded ->
         axis_to_dim_map st' !! axis = Some recorded)
  /\ (ShardingMergeForAxis "a" 0 (-1) = Ok 0
      /\ ShardingMergeForTensors [("a", [-1]); ("a", [0])]
         = Ok {[ "a" := -1 ]}).
Proof.
  split; [|split].
  - intros pairs m Hm. apply ShardingMergeForTensors_Ok in Hm as (st & Hst & ->).
    exists st. split; [done|]. split; [|split; [|split]]; intros axis.
    + by apply merge_tensors_recorded.
    + apply resolve_conflicts_demoted.
    + intros Hd. rewrite resolve_conflicts_kept by done.
      by apply merge_tensors_recorded.
    + intros v. rewrite resolve_conflicts_lookup.
      case_decide; [intros [= <-]; by right|].
      rewrite (merge_tensors_recorded _ _ axis Hst). by left.
  - intros axis mesh_dim st st' recorded Hstep Hrec.
    rewrite (merge_axis_recorded _ _ _ _ axis Hstep).
    unfold recorded_after. by rewrite Hrec.
  - split; reflexivity.
Qed.

Lemma first_occurrence_is_recorded_witness :
  ShardingMergeForTensors [("ab", [0; 1]); ("cb", [0; -1])]
  = Ok (list_to_map [("a", 0); ("b", -1); ("c", -1)])
  /\ (exists st,
        merge_tensors [("ab", [0; 1]); ("cb", [0; -1])] init_state = Ok st
        /\ (forall axis,
               axis_to_dim_map st !! axis
               = first_dim axis (positions [("ab", [0; 1]); ("cb", [0; -1])]))
        /\ (forall axis,
               demoted (dim_to_axis_map st) axis ->
               (list_to_map [("a", 0); ("b", -1); ("c", -1)] : gmap string Z)
                 !! axis = Some (-1))
        /\ (forall axis,
               ~ demoted (dim_to_axis_map st) axis ->
               (list_to_map [("a", 0); ("b", -1); ("c", -1)] : gmap string Z)
                 !! axis
               = first_dim axis (positions [("ab", [0; 1]); ("cb", [0; -1])]))
        /\ (forall axis v,
               (list_to_map [("a", 0); ("b", -1); ("c", -1)] : gmap string Z)
                 !! axis = Some v ->
               first_dim axis (positions [("ab", [0; 1]); ("cb", [0; -1])])
               = Some v \/ v = -1))
  /\ (merge_axis "a" 1 (MergeState {[ "a" := -1 ]} {[ -1 := "a" ]})
      = Ok (MergeState {[ "a" := -1 ]} (list_to_map [(-1, "a"); (1, "a")]))
      /\ ({[ "a" := -1 ]} : gmap string Z) !! "a" = Some (-1)).
Proof.
  split; [reflexivity|]. split.
  - apply (proj1 first_occurrence_is_recorded
             [("ab", [0; 1]); ("cb", [0; -1])]). reflexivity.
  - split; [reflexivity|].
    exact (proj1 (proj2 first_occurrence_is_recorded) "a" 1
             (MergeState {[ "a" := -1 ]} {[ -1 := "a" ]})
             (MergeState {[ "a" := -1 ]} (list_to_map [(-1, "a"); (1, "a")]))
             (-1) eq_refl eq_refl).
Defined.

(** ** Failure on well-formed inputs *)

Lemma positions_from_dims notation i dims :
  Forall (fun d => -1 <= d) dims ->
  Forall (fun p : string * Z => -1 <= p.2) (positions_from notation i dims).
Proof.
  intros Hd. revert i. induction Hd as [|d dims Hd _ IH]; intros i; simpl.
  - constructor.
  - constructor; [done|apply IH].
Qed.

Lemma positions_dims pairs :
  well_formed pairs ->
  Forall (fun p : string * Z => -1 <= p.2) (positions pairs).
Proof.
  unfold positions. induction 1 as [|[n dims] pairs [_ Hd] _ IH]; simpl.
  - constructor.
  - apply Forall_app. split; [by apply positions_from_dims|done].
Qed.

Lemma clash_conflicting ps :
  Forall (fun p : string * Z => -1 <= p.2) ps ->
  clash ps <-> conflicting ps.
Proof.
  intros Hps. unfold clash, conflicting. split.
  - intros (pre & axis & d1 & mid & d2 & post & -> & Hpre & H1 & H2 & Hne).
    apply Forall_app in Hps as [_ Hps].
    apply Forall_cons in Hps as [Hd1 Hps].
    apply Forall_app in Hps as [_ Hps].
    apply Forall_cons in Hps as [Hd2 _]. simpl in *.
    exists pre, axis, d1, mid, d2, post. repeat split; auto; lia.
  - intros (pre & axis & d1 & mid & d2 & post & -> & Hpre & H1 & H2 & Hne).
    exists pre, axis, d1, mid, d2, post. repeat split; auto; lia.
Qed.

Lemma merge_axis_absent axis d st :
  axis_to_dim_map st !! axis = None ->
  dim_to_axis_map st !! d = None ->
  merge_axis axis d st
  = Ok (MergeState (<[axis := d]> (axis_to_dim_map st))
                   (<[d := axis]> (dim_to_axis_map st))).
Proof.
  intros Ha Hd. unfold merge_axis, umap_insert. rewrite Ha. simpl.
  by rewrite Hd.
Qed.

Lemma merge_axis_replicated axis d st :
  axis_to_dim_map st !! axis = Some (-1) ->
  dim_to_axis_map st !! d = None ->
  merge_axis axis d st
  = Ok (MergeState (axis_to_dim_map st) (<[d := axis]> (dim_to_axis_map st))).
Proof.
  intros Ha Hd. unfold merge_axis, umap_insert.
  rewrite Ha, ShardingMergeForAxis_replicated_r. simpl.
  by rewrite Hd.
Qed.

Lemma replicated_then_two_dims c d1 d2 :
  d1 <> -1 -> d2 <> -1 -> d1 <> d2 ->
  let axis := String c "" in
  ShardingMergeForTensors [(axis, [-1]); (axis, [d1]); (axis, [d2])]
  = Ok {[ axis := -1 ]}.
Proof.
  intros H1 H2 Hne axis.
  set (st1 := MergeState {[ axis := -1 ]} {[ -1 := axis ]}).
  set (st2 := MergeState {[ axis := -1 ]} (<[d1 := axis]> {[ -1 := axis ]})).
  set (st3 := MergeState {[ axis := -1 ]}
                (<[d2 := axis]> (<[d1 := axis]> {[ -1 := axis ]}))).
  assert (merge_axis axis (-1) init_state = Ok st1) as E1.
  { rewrite merge_axis_absent by apply lookup_empty. done. }
  assert (merge_axis axis d1 st1 = Ok st2) as E2.
  { rewrite merge_axis_replicated; [done|apply lookup_singleton_eq|].
    simpl. by rewrite lookup_singleton_ne. }
  assert (merge_axis axis d2 st2 = Ok st3) as E3.
  { rewrite merge_axis_replicated; [done|apply lookup_singleton_eq|].
    simpl. rewrite lookup_insert_ne by done. by rewrite lookup_singleton_ne. }
  assert (substr axis 0 1 = Ok axis) as Hsub by done.
  apply ShardingMergeForTensors_Ok. exists st3. split.
  - cbn [merge_tensors merge_tensor].
    rewrite Hsub. cbn [bind]. rewrite E1. cbn [bind].
    rewrite E2. cbn [bind]. rewrite E3. done.
  - symmetry. apply map_eq. intros a.
    apply resolve_conflicts_kept.
    intros (d & axes & Hl & Hd).
    assert (axes = axis) as ->.
    { simpl in Hl.
      apply lookup_insert_Some in Hl as [[_ <-]|[_ Hl]]; [done|].
      apply lookup_insert_Some in Hl as [[_ <-]|[_ Hl]]; [done|].
      by apply lookup_singleton_Some in Hl as [_ <-]. }
    unfold demoted_by in Hd. simpl in Hd. by apply Exists_nil in Hd.
Qed.

(** On a well-formed input the merge fails exactly when some axis
    whose first occurrence carries a non-negative mesh dimension occurs
    later with a different non-negative mesh dimension.  An axis first
    seen with [-1] and then claimed by two different mesh dimensions
    makes no failure: the merge returns the map that holds [-1] for it. *)
Theorem merge_fails_iff_conflicting :
  (forall pairs,
      well_formed pairs ->
      failed (ShardingMergeForTensors pairs) <-> conflicting (positions pairs))
  /\ (forall c d1 d2,
         0 <= d1 -> 0 <= d2 -> d1 <> d2 ->
         ShardingMergeForTensors
           [(String c "", [-1]); (String c "", [d1]); (String c "", [d2])]
         = Ok {[ String c "" := -1 ]}).
Proof.
  split.
  - intros pairs Hwf.
    rewrite ShardingMergeForTensors_failed, merge_tensors_positions by done.
    rewrite merge_positions_failed_init.
    apply clash_conflicting. by apply positions_dims.
  - intros c d1 d2 H1 H2 Hne. apply replicated_then_two_dims; lia.
Qed.

Lemma merge_fails_iff_conflicting_witness :
  well_formed [("ab", [0; 1]); ("ca", [-1; 1])]
  /\ failed (ShardingMergeForTensors [("ab", [0; 1]); ("ca", [-1; 1])])
  /\ conflicting (positions [("ab", [0; 1]); ("ca", [-1; 1])])
  /\ ShardingMergeForTensors [("a", [-1]); ("a", [0]); ("a", [1])]
     = Ok {[ "a" := -1 ]}.
Proof.
  assert (well_formed [("ab", [0; 1]); ("ca", [-1; 1])]) as Hwf.
  { repeat constructor; simpl; lia. }
  assert (failed (ShardingMergeForTensors [("ab", [0; 1]); ("ca", [-1; 1])]))
    as Hf.
  { eexists. reflexivity. }
  split; [exact Hwf|]. split; [exact Hf|]. split.
  - exact (proj1 (proj1 merge_fails_iff_conflicting _ Hwf) Hf).
  - apply (proj2 merge_fails_iff_conflicting "a"%char 0 1); lia.
Defined.

(** ** The distribution-attribute copy *)

(** C9. The descriptor returned by [CopyTensorDistAttrForOutput] has the
    process mesh, the batch dimension and the dynamic-dimension flags of
    the source, its annotated flag is false whatever the source's is, and
    the source is the same after the call as before. *)
Theorem CopyTensorDistAttrForOutput_copies_and_resets :
  forall (ProcessMesh : Type) (default_mesh : ProcessMesh)
         (src : TensorDistAttr ProcessMesh),
    process_mesh (CopyTensorDistAttrForOutput default_mesh src)
    = process_mesh src
    /\ batch_dim (CopyTensorDistAttrForOutput default_mesh src) = batch_dim src
    /\ dynamic_dims (CopyTensorDistAttrForOutput default_mesh src)
       = dynamic_dims src
    /\ annotated (CopyTensorDistAttrForOutput default_mesh src) = false
    /\ src_dist_attr (CopyTensorDistAttrForOutput_frame default_mesh src) = src.
Proof.
  intros ProcessMesh default_mesh src.
  unfold CopyTensorDistAttrForOutput, CopyTensorDistAttrForOutput_frame,
    call_on_new.
  repeat split.
Qed.

(** ** The rule base *)

(** C10. Whatever the specs and the attribute map, [InferForward] and
    [InferBackward] of [SPMDRuleBase] end with the Unimplemented error
    whose message names [SPMDRuleBase]; neither returns a value. *)
Theorem SPMDRuleBase_unimplemented :
  forall (ProcessMesh Attribute : Type)
         (specs : list (DistTensorSpec ProcessMesh))
         (attrs : gmap string Attribute),
    SPMDRuleBase.InferForward specs attrs
    = Err (Unimplemented SPMDRuleBase.InferForward_msg [])
    /\ SPMDRuleBase.InferBackward specs attrs
       = Err (Unimplemented SPMDRuleBase.InferBackward_msg [])
    /\ is_Some (find SPMDRuleBase.InferForward_msg "SPMDRuleBase")
    /\ is_Some (find SPMDRuleBase.InferBackward_msg "SPMDRuleBase")
    /\ ~ (exists v, SPMDRuleBase.InferForward specs attrs = Ok v)
    /\ ~ (exists v, SPMDRuleBase.InferBackward specs attrs = Ok v).
Proof.
  intros ProcessMesh Attribute specs attrs.
  repeat split; try (by eexists); intros [v Hv]; discriminate.
Qed.

(** ** Behaviour at the inputs where the code departs from the intent *)

(** The order in which [in_axis_to_dim_map] is enumerated only permutes
    the result of the partial-dimension loop. *)

Lemma partial_dims_loop_enumeration entries m out_axis :
  enumerates entries m ->
  partial_dims_loop entries out_axis
  ≡ₚ ResoluteOutputPartialDimension m out_axis.
Proof.
  unfold enumerates, ResoluteOutputPartialDimension. intros Hperm.
  rewrite !partial_dims_loop_filter. by rewrite Hperm.
Qed.

Lemma ResoluteOutputPartialDimension_elem m out_axis d :
  d ∈ ResoluteOutputPartialDimension m out_axis
  <-> exists axis, m !! axis = Some d
                /\ is_Some (find out_axis axis) /\ d > -1.
Proof.
  unfold ResoluteOutputPartialDimension.
  rewrite partial_dims_loop_filter, list_elem_of_fmap. split.
  - intros ([axis d'] & -> & Hin). apply list_elem_of_filter in Hin as [[Hf Hd] Hin].
    apply elem_of_map_to_list in Hin. eauto.
  - intros (axis & Hm & Hf & Hd). exists (axis, d). split; [done|].
    apply list_elem_of_filter. split; [done|]. by apply elem_of_map_to_list.
Qed.

(** C1. On the input [("ik", [0, 1]), ("kj", [1, -1])] the merge returns
    the map that sends [i] to [0] and both [k] and [j] to [-1]: the second
    claim of mesh dimension [1] by [k] itself makes the conflict pass
    demote [k].  On the map [{i:0, k:1, j:-1}] and on the returned map the
    partial-dimension loop with output notation ["ij"] yields [[0]], the
    mesh dimension of the output axis [i]. *)
Theorem matmul_scenario_merge_and_partial :
  ShardingMergeForTensors [("ik", [0; 1]); ("kj", [1; -1])]
  = Ok (list_to_map [("i", 0); ("k", -1); ("j", -1)])
  /\ ShardingMergeForTensors [("ik", [0; 1]); ("kj", [1; -1])]
     <> Ok (list_to_map [("i", 0); ("k", 1); ("j", -1)])
  /\ ResoluteOutputPartialDimension
       (list_to_map [("i", 0); ("k", 1); ("j", -1)]) "ij" = [0]
  /\ ResoluteOutputPartialDimension
       (list_to_map [("i", 0); ("k", -1); ("j", -1)]) "ij" = [0].
Proof.
  split; [reflexivity|]. split; [|split; reflexivity].
  intros H. apply (f_equal (fun r => match r with
                                     | Ok m => m !! "k"
                                     | Err _ => None
                                     end)) in H.
  vm_compute in H. discriminate.
Qed.

(** C2. The partial-dimension loop returns the mesh dimensions greater
    than [-1] of the entries whose axis is found in the output notation.
    On the map [{i:0, k:1}] with output notation ["i"] it returns [[0]];
    the mesh dimension [1] of the axis [k], absent from the output, is
    not returned. *)
Theorem partial_dims_of_present_axes :
  (forall m out_axis,
      ResoluteOutputPartialDimension m out_axis
      = (filter (selected out_axis) (map_to_list m)).*2)
  /\ ResoluteOutputPartialDimension (list_to_map [("i", 0); ("k", 1)]) "i"
     = [0]
  /\ 1 ∉ ResoluteOutputPartialDimension (list_to_map [("i", 0); ("k", 1)]) "i".
Proof.
  split; [|split].
  - intros m out_axis. apply partial_dims_loop_filter.
  - reflexivity.
  - intros [=]%list_elem_of_singleton.
Qed.

(** C3. An axis recorded with [-1] that meets mesh dimension [0]: the
    pairwise rule yields [0], the step of the first pass leaves [-1]
    recorded, and the merge returns [-1] for the axis. *)
Theorem recorded_replicated_not_updated :
  merge_tensors [("a", [-1])] init_state
  = Ok (MergeState {[ "a" := -1 ]} {[ -1 := "a" ]})
  /\ ShardingMergeForAxis "a" 0 (-1) = Ok 0
  /\ merge_axis "a" 0 (MergeState {[ "a" := -1 ]} {[ -1 := "a" ]})
     = Ok (MergeState {[ "a" := -1 ]} (list_to_map [(-1, "a"); (0, "a")]))
  /\ ShardingMergeForTensors [("a", [-1]); ("a", [0])] = Ok {[ "a" := -1 ]}.
Proof. repeat split. Qed.

(** C4. The pair [("i", [0])] alone merges to [{i:0}]; given twice it
    merges to [{i:-1}]: the claim string of mesh dimension [0] is ["ii"]
    and the conflict pass demotes its second entry. *)
Theorem merge_twice_demotes_axis :
  ShardingMergeForTensors [("i", [0])] = Ok {[ "i" := 0 ]}
  /\ merge_tensors [("i", [0]); ("i", [0])] init_state
     = Ok (MergeState {[ "i" := 0 ]} {[ 0 := "ii" ]})
  /\ ShardingMergeForTensors [("i", [0]); ("i", [0])] = Ok {[ "i" := -1 ]}.
Proof. repeat split. Qed.

(** C5. Mesh dimension [0] claimed by [a], by [a] again and by [b]: the
    claim string is ["aab"], the merge succeeds, and both [b] and the
    first claimant [a] are returned with [-1].  With [a] occurring once
    the first claimant keeps the dimension. *)
Theorem first_claimant_demoted_when_repeated :
  merge_tensors [("a", [0]); ("a", [0]); ("b", [0])] init_state
  = Ok (MergeState (list_to_map [("a", 0); ("b", 0)]) {[ 0 := "aab" ]})
  /\ ShardingMergeForTensors [("a", [0]); ("a", [0]); ("b", [0])]
     = Ok (list_to_map [("a", -1); ("b", -1)])
  /\ ShardingMergeForTensors [("a", [0]); ("b", [0])]
     = Ok (list_to_map [("a", 0); ("b", -1)]).
Proof. repeat split. Qed.

(** * Further properties of the code *)

(** ** Strings *)

Lemma string_app_length s t :
  String.length (s +:+ t) = (String.length s + String.length t)%nat.
Proof. induction s as [|c s IH]; simpl; [done|]. by rewrite IH. Qed.

Lemma substring_1_length_le i s : (String.length (substring i 1 s) <= 1)%nat.
Proof.
  revert i. induction s as [|c s IH]; intros [|i]; simpl; try lia.
  - destruct s; simpl; lia.
  - apply IH.
Qed.

Lemma substring_1_length i s :
  (i < String.length s)%nat -> String.length (substring i 1 s) = 1%nat.
Proof.
  revert i. induction s as [|c s IH]; intros [|i]; simpl; try lia.
  - intros _. by destruct s.
  - intros Hi. apply IH. lia.
Qed.

Lemma substring_1_overflow i s :
  (String.length s <= i)%nat -> substring i 1 s = "".
Proof.
  revert i. induction s as [|c s IH]; intros [|i]; simpl; try done; try lia.
  intros Hi. apply IH. lia.
Qed.

Lemma substring_1_app_l i s t :
  (i < String.length s)%nat -> substring i 1 (s +:+ t) = substring i 1 s.
Proof.
  revert i. induction s as [|c s IH]; intros [|i]; simpl; try lia.
  - intros _. by destruct s, t.
  - intros Hi. apply IH. lia.
Qed.

Lemma substring_1_app_r i s t :
  (String.length s <= i)%nat ->
  substring i 1 (s +:+ t) = substring (i - String.length s) 1 t.
Proof.
  revert i. induction s as [|c s IH]; intros i; simpl.
  - intros _. by rewrite Nat.sub_0_r.
  - destruct i as [|i]; [lia|]. intros Hi. simpl. apply IH. lia.
Qed.

Lemma substring_1_whole t : String.length t = 1%nat -> substring 0 1 t = t.
Proof. destruct t as [|c [|c' t]]; simpl; try done. Qed.

Lemma occurs_app_l axes t i a : occurs axes i a -> occurs (axes +:+ t) i a.
Proof.
  intros [Hi <-]. split.
  - rewrite string_app_length. lia.
  - by apply substring_1_app_l.
Qed.

Lemma occurs_app_end axes t :
  String.length t = 1%nat -> occurs (axes +:+ t) (String.length axes) t.
Proof.
  intros Ht. split.
  - rewrite string_app_length. lia.
  - rewrite substring_1_app_r, Nat.sub_diag by lia. by apply substring_1_whole.
Qed.

Lemma occurs_app_inv axes t i a :
  (String.length t <= 1)%nat ->
  occurs (axes +:+ t) i a ->
  occurs axes i a \/ (i = String.length axes /\ a = t /\ String.length t = 1%nat).
Proof.
  intros Ht [Hi <-]. rewrite string_app_length in Hi.
  destruct (decide (i < String.length axes)%nat) as [Hlt|Hge].
  - left. split; [done|]. by rewrite substring_1_app_l.
  - right. assert (i = String.length axes) as -> by lia.
    assert (String.length t = 1%nat) as Ht1 by lia.
    split; [done|]. split; [|done].
    rewrite substring_1_app_r, Nat.sub_diag by lia. by apply substring_1_whole.
Qed.

Lemma occurs_single t i a : String.length t = 1%nat -> occurs t i a -> i = 0%nat /\ a = t.
Proof.
  intros Ht [Hi <-]. assert (i = 0%nat) as -> by lia.
  split; [done|]. by apply substring_1_whole.
Qed.

Lemma demoted_by_occurs axes a :
  demoted_by axes a <-> exists i, (1 <= i)%nat /\ occurs axes i a.
Proof.
  unfold demoted_by, occurs. rewrite Exists_exists. split.
  - intros (i & Hi & Ha). apply elem_of_seq in Hi. exists i. split; [lia|].
    split; [lia|done].
  - intros (i & Hi & Hlen & Ha). exists i. split; [|done].
    apply elem_of_seq. lia.
Qed.

(** ** One step of the first pass, inverted *)

Lemma ShardingMergeForAxis_Ok_inv axis d r md :
  ShardingMergeForAxis axis d r = Ok md ->
  md = (if decide (d = -1) then r else d) /\ (r = -1 \/ md = r).
Proof.
  unfold ShardingMergeForAxis. repeat case_decide; intros [= <-]; subst;
    split; auto; try done.
Qed.

Lemma merge_axis_Ok_inv a d st st' :
  merge_axis a d st = Ok st' ->
  exists md,
    match axis_to_dim_map st !! a with
    | None => md = d
    | Some r => ShardingMergeForAxis a d r = Ok md
    end
    /\ dim_to_axis_map st'
       = <[md := default "" (dim_to_axis_map st !! md) +:+ a]>
           (dim_to_axis_map st).
Proof.
  unfold merge_axis. intros H. apply bind_Ok in H as (md & Hmd & [= <-]).
  exists md. split.
  - destruct (axis_to_dim_map st !! a); [done|congruence].
  - simpl. by destruct (dim_to_axis_map st !! md).
Qed.

Lemma merge_axis_keeps a d st st' x v :
  merge_axis a d st = Ok st' ->
  axis_to_dim_map st !! x = Some v -> axis_to_dim_map st' !! x = Some v.
Proof.
  intros H Hx. rewrite (merge_axis_recorded _ _ _ _ x H).
  unfold recorded_after. by rewrite Hx.
Qed.

Lemma merge_axis_records a d st st' :
  merge_axis a d st = Ok st' -> is_Some (axis_to_dim_map st' !! a).
Proof.
  intros H. rewrite (merge_axis_recorded _ _ _ _ a H).
  unfold recorded_after. destruct (axis_to_dim_map st !! a); [eauto|].
  simpl. rewrite decide_True by done. eauto.
Qed.

Lemma merge_axis_claims_kept a d st st' k axes :
  merge_axis a d st = Ok st' ->
  dim_to_axis_map st !! k = Some axes ->
  exists axes', dim_to_axis_map st' !! k = Some axes'
             /\ forall i b, occurs axes i b -> occurs axes' i b.
Proof.
  intros H Hk. apply merge_axis_Ok_inv in H as (md & _ & ->).
  destruct (decide (md = k)) as [->|Hne].
  - rewrite lookup_insert_eq, Hk. simpl. eexists. split; [done|].
    intros i b. apply occurs_app_l.
  - rewrite lookup_insert_ne by done. eauto.
Qed.

Lemma merge_axis_claims_inv a d st st' k axes' i b :
  (String.length a <= 1)%nat ->
  merge_axis a d st = Ok st' ->
  dim_to_axis_map st' !! k = Some axes' -> occurs axes' i b ->
  (exists axes, dim_to_axis_map st !! k = Some axes /\ occurs axes i b)
  \/ b = a.
Proof.
  intros Ha H Hk Hocc. apply merge_axis_Ok_inv in H as (md & _ & Hd2a).
  rewrite Hd2a in Hk. destruct (decide (md = k)) as [->|Hne].
  - rewrite lookup_insert_eq in Hk. injection Hk as <-.
    apply occurs_app_inv in Hocc; [|done].
    destruct Hocc as [Hocc|(_ & -> & _)]; [|by right].
    destruct (dim_to_axis_map st !! k) as [axes|]; simpl in Hocc.
    + left. eauto.
    + destruct Hocc as [Hi _]. simpl in Hi. lia.
  - rewrite lookup_insert_ne in Hk by done. left. eauto.
Qed.

Lemma merge_axis_demoted a d st st' b :
  merge_axis a d st = Ok st' ->
  demoted (dim_to_axis_map st) b -> demoted (dim_to_axis_map st') b.
Proof.
  intros H (k & axes & Hk & Hd).
  destruct (merge_axis_claims_kept _ _ _ _ _ _ H Hk) as (axes' & Hk' & Hocc).
  exists k, axes'. split; [done|].
  apply demoted_by_occurs in Hd as (i & Hi & Hd).
  apply demoted_by_occurs. eauto.
Qed.

Lemma merge_axis_linked a d st st' :
  String.length a = 1%nat ->
  merge_axis a d st = Ok st' -> linked st -> linked st'.
Proof.
  intros Ha H [Hclaimed Hnonempty]. split.
  - intros x v Hx. rewrite (merge_axis_recorded _ _ _ _ x H) in Hx.
    unfold recorded_after in Hx.
    destruct (axis_to_dim_map st !! x) as [w|] eqn:Hold.
    + injection Hx as <-. destruct (Hclaimed _ _ Hold) as (axes & i & Hk & Hocc).
      destruct (merge_axis_claims_kept _ _ _ _ _ _ H Hk) as (axes' & Hk' & Hmono).
      eauto.
    + simpl in Hx. case_decide; [subst x|done]. injection Hx as <-.
      apply merge_axis_Ok_inv in H as (md & Hmd & ->). rewrite Hold in Hmd.
      subst md. rewrite lookup_insert_eq. eexists _, _. split; [done|].
      by apply occurs_app_end.
  - intros k axes' Hk. apply merge_axis_Ok_inv in H as (md & _ & Hd2a).
    rewrite Hd2a in Hk. destruct (decide (md = k)) as [->|Hne].
    + rewrite lookup_insert_eq in Hk. injection Hk as <-.
      rewrite string_app_length. lia.
    + rewrite lookup_insert_ne in Hk by done. eauto.
Qed.

Lemma merge_axis_claims_recorded a d st st' :
  (String.length a <= 1)%nat ->
  merge_axis a d st = Ok st' -> claims_recorded st -> claims_recorded st'.
Proof.
  intros Ha H Hrec k axes' i b Hk Hocc.
  destruct (merge_axis_claims_inv _ _ _ _ _ _ _ _ Ha H Hk Hocc)
    as [(axes & Hold & Hocc')| ->].
  - destruct (Hrec _ _ _ _ Hold Hocc') as [v Hv].
    exists v. by eapply merge_axis_keeps.
  - by eapply merge_axis_records.
Qed.

Lemma merge_axis_again a d st st' d0 :
  linked st ->
  axis_to_dim_map st !! a = Some d0 ->
  merge_axis a d st = Ok st' ->
  axis_to_dim_map st' !! a = Some (-1) \/ demoted (dim_to_axis_map st') a.
Proof.
  intros [Hclaimed _] Ha H.
  pose proof (merge_axis_keeps _ _ _ _ _ _ H Ha) as Ha'.
  destruct (merge_axis_Ok_inv _ _ _ _ H) as (md & Hmd & Hd2a).
  rewrite Ha in Hmd. apply ShardingMergeForAxis_Ok_inv in Hmd as [_ [->| ->]].
  - by left.
  - right. destruct (Hclaimed _ _ Ha) as (axes & i & Hk & [Hi _]).
    exists d0, (axes +:+ a). split.
    + by rewrite Hd2a, lookup_insert_eq, Hk.
    + apply demoted_by_occurs. exists (String.length axes). split; [lia|].
      apply occurs_app_end.
      destruct (Hclaimed _ _ Ha) as (axes0 & i0 & _ & Hocc).
      destruct Hocc as [Hi0 <-]. by apply substring_1_length.
Qed.

(** ** The invariants along the first pass *)

Lemma positions_from_lengths_le notation i dims :
  Forall (fun p : string * Z => (String.length p.1 <= 1)%nat)
    (positions_from notation i dims).
Proof.
  revert i. induction dims as [|d dims IH]; intros i; simpl; constructor.
  - apply substring_1_length_le.
  - apply IH.
Qed.

Lemma positions_lengths_le pairs :
  Forall (fun p : string * Z => (String.length p.1 <= 1)%nat) (positions pairs).
Proof.
  unfold positions. induction pairs as [|[n dims] pairs IH]; simpl.
  - constructor.
  - apply Forall_app. split; [apply positions_from_lengths_le|done].
Qed.

Lemma positions_from_lengths notation i dims :
  (i + length dims <= String.length notation)%nat ->
  Forall (fun p : string * Z => String.length p.1 = 1%nat)
    (positions_from notation i dims).
Proof.
  revert i. induction dims as [|d dims IH]; intros i Hlen; simpl in *;
    constructor.
  - apply substring_1_length. lia.
  - apply IH. lia.
Qed.

Lemma positions_lengths pairs :
  in_range pairs ->
  Forall (fun p : string * Z => String.length p.1 = 1%nat) (positions pairs).
Proof.
  unfold positions. induction 1 as [|[n dims] pairs Hlen _ IH]; simpl in *.
  - constructor.
  - apply Forall_app. split; [by apply positions_from_lengths|done].
Qed.

Lemma merge_tensors_positions_in_range pairs st :
  in_range pairs ->
  merge_tensors pairs st = merge_positions (positions pairs) st.
Proof.
  intros Hr. revert st.
  induction Hr as [|[n dims] pairs Hlen _ IH]; intros st; simpl; [done|].
  unfold positions in *. simpl in *.
  rewrite merge_positions_app, merge_tensor_positions by lia.
  destruct (merge_positions _ st); simpl; [apply IH|done].
Qed.

Lemma linked_init : linked init_state.
Proof. split; intros ? ?; simpl; by rewrite lookup_empty. Qed.

Lemma claims_recorded_init : claims_recorded init_state.
Proof. intros d axes i a. simpl. by rewrite lookup_empty. Qed.

Lemma merge_positions_linked ps st st' :
  Forall (fun p : string * Z => String.length p.1 = 1%nat) ps ->
  merge_positions ps st = Ok st' -> linked st -> linked st'.
Proof.
  intros Hps. revert st. induction Hps as [|[a d] ps Ha _ IH]; intros st; simpl.
  - by intros [= <-].
  - intros H Hl. apply bind_Ok in H as (st1 & H1 & H).
    eapply IH; [done|]. by eapply merge_axis_linked.
Qed.

Lemma merge_positions_claims_recorded ps st st' :
  Forall (fun p : string * Z => (String.length p.1 <= 1)%nat) ps ->
  merge_positions ps st = Ok st' -> claims_recorded st -> claims_recorded st'.
Proof.
  intros Hps. revert st. induction Hps as [|[a d] ps Ha _ IH]; intros st; simpl.
  - by intros [= <-].
  - intros H Hl. apply bind_Ok in H as (st1 & H1 & H).
    eapply IH; [done|]. by eapply merge_axis_claims_recorded.
Qed.

Lemma merge_positions_demoted ps st st' b :
  merge_positions ps st = Ok st' ->
  demoted (dim_to_axis_map st) b -> demoted (dim_to_axis_map st') b.
Proof.
  revert st. induction ps as [|[a d] ps IH]; intros st; simpl.
  - by intros [= <-].
  - intros H Hd. apply bind_Ok in H as (st1 & H1 & H).
    eapply IH; [done|]. by eapply merge_axis_demoted.
Qed.

Lemma merge_positions_keeps ps st st' x v :
  merge_positions ps st = Ok st' ->
  axis_to_dim_map st !! x = Some v -> axis_to_dim_map st' !! x = Some v.
Proof.
  intros H Hx. rewrite (merge_positions_recorded _ _ _ x H).
  unfold recorded_after. by rewrite Hx.
Qed.

Lemma merge_positions_again ps st st' p1 a d1 p2 d2 p3 :
  Forall (fun p : string * Z => String.length p.1 = 1%nat) ps ->
  linked st ->
  merge_positions ps st = Ok st' ->
  ps = p1 ++ (a, d1) :: p2 ++ (a, d2) :: p3 ->
  axis_to_dim_map st' !! a = Some (-1) \/ demoted (dim_to_axis_map st') a.
Proof.
  intros Hps Hl H ->.
  apply Forall_app in Hps as [Hp1 Hps]. apply Forall_cons in Hps as [Ha Hps].
  apply Forall_app in Hps as [Hp2 Hps]. apply Forall_cons in Hps as [_ Hp3].
  rewrite merge_positions_app in H. apply bind_Ok in H as (st1 & H1 & H).
  simpl in H. apply bind_Ok in H as (st2 & H2 & H).
  rewrite merge_positions_app in H. apply bind_Ok in H as (st3 & H3 & H).
  simpl in H. apply bind_Ok in H as (st4 & H4 & H).
  assert (linked st3) as Hl3.
  { eapply merge_positions_linked; [exact Hp2|exact H3|].
    eapply merge_axis_linked; [exact Ha|exact H2|].
    eapply merge_positions_linked; [exact Hp1|exact H1|exact Hl]. }
  destruct (merge_axis_records _ _ _ _ H2) as [d0 Hd0].
  pose proof (merge_positions_keeps _ _ _ _ _ H3 Hd0) as Hd3.
  destruct (merge_axis_again _ _ _ _ _ Hl3 Hd3 H4) as [Hrep|Hdem].
  - left. by eapply merge_positions_keeps.
  - right. by eapply merge_positions_demoted.
Qed.

Lemma ShardingMergeForTensors_lookup pairs m st axis :
  ShardingMergeForTensors pairs = Ok m ->
  merge_tensors pairs init_state = Ok st ->
  (demoted (dim_to_axis_map st) axis /\ m !! axis = Some (-1))
  \/ (~ demoted (dim_to_axis_map st) axis
      /\ m !! axis = axis_to_dim_map st !! axis).
Proof.
  intros Hm Hst. apply ShardingMergeForTensors_Ok in Hm as (st' & Hst' & ->).
  assert (st' = st) as -> by congruence.
  rewrite resolve_conflicts_lookup.
  assert (enumerates (map_to_list (dim_to_axis_map st)) (dim_to_axis_map st))
    as He by (unfold enumerates; done).
  pose proof (demoted_enumeration _ _ axis He) as Hiff.
  case_decide; [left|right]; split; tauto.
Qed.

Lemma positions_from_elem notation i dims a v :
  (a, v) ∈ positions_from notation i dims -> v ∈ dims.
Proof.
  revert i. induction dims as [|d dims IH]; intros i; simpl.
  - by intros ?%elem_of_nil.
  - rewrite !elem_of_cons. intros [[= _ ->]|Hin]; [by left|].
    right. by eapply IH.
Qed.

Lemma positions_elem pairs a v :
  (a, v) ∈ positions pairs -> exists pair, pair ∈ pairs /\ v ∈ pair.2.
Proof.
  unfold positions. induction pairs as [|[n dims] pairs IH]; simpl.
  - by intros ?%elem_of_nil.
  - rewrite elem_of_app. intros [Hin|Hin].
    + exists (n, dims). split; [left|]. simpl. by eapply positions_from_elem.
    + destruct (IH Hin) as (pair & Hp & Hv). exists pair. split; [by right|done].
Qed.

Lemma first_dim_elem axis ps d : first_dim axis ps = Some d -> (axis, d) ∈ ps.
Proof.
  intros (pre & post & -> & _)%first_dim_Some.
  apply elem_of_app. right. left.
Qed.

(** ** The map returned by the merge *)

(** X3. The keys of the map returned by [ShardingMergeForTensors] are
    exactly the axes of the positions visited: every visited axis gets an
    entry, and the conflict pass, which writes through [operator[]], never
    creates an entry for a string that was not an axis. *)
Theorem merged_keys_are_visited_axes :
  forall pairs m axis,
    ShardingMergeForTensors pairs = Ok m ->
    is_Some (m !! axis) <-> axis ∈ (positions pairs).*1.
Proof.
  intros pairs m axis Hm.
  destruct (proj1 (ShardingMergeForTensors_Ok _ _) Hm) as (st & Hst & _).
  pose proof (merge_tensors_recorded _ _ axis Hst) as Hrec.
  assert (claims_recorded st) as Hcr.
  { eapply merge_positions_claims_recorded;
      [apply positions_lengths_le|by apply merge_tensors_positions_Ok|].
    apply claims_recorded_init. }
  assert (is_Some (axis_to_dim_map st !! axis) <-> axis ∈ (positions pairs).*1)
    as Hkeys.
  { rewrite Hrec. rewrite <- not_eq_None_Some, first_dim_None.
    destruct (decide (axis ∈ (positions pairs).*1)); tauto. }
  destruct (ShardingMergeForTensors_lookup _ _ _ axis Hm Hst)
    as [[Hd Hv]|[_ Hv]]; rewrite Hv; [|done].
  split; [|eauto]. intros _. apply Hkeys.
  destruct Hd as (d & axes & Hk & (i & _ & Hocc)%demoted_by_occurs).
  by eapply Hcr.
Qed.

Lemma merged_keys_are_visited_axes_witness :
  ShardingMergeForTensors [("ab", [0; 0]); ("b", [-1])]
  = Ok (list_to_map [("a", 0); ("b", -1)])
  /\ (is_Some ((list_to_map [("a", 0); ("b", -1)] : gmap string Z) !! "b")
      <-> "b" ∈ (positions [("ab", [0; 0]); ("b", [-1])]).*1).
Proof.
  split; [reflexivity|].
  apply (merged_keys_are_visited_axes [("ab", [0; 0]); ("b", [-1])]).
  reflexivity.
Defined.

(** X4. Every value of the returned map is [-1] or a mesh dimension that
    stands in one of the input sharding vectors: the merge invents no
    mesh dimension. *)
Theorem merged_values_come_from_input :
  forall pairs m axis v,
    ShardingMergeForTensors pairs = Ok m ->
    m !! axis = Some v ->
    v = -1 \/ exists pair, pair ∈ pairs /\ v ∈ pair.2.
Proof.
  intros pairs m axis v Hm Hv.
  destruct (proj1 (ShardingMergeForTensors_Ok _ _) Hm) as (st & Hst & _).
  destruct (ShardingMergeForTensors_lookup _ _ _ axis Hm Hst)
    as [[_ Hv']|[_ Hv']]; rewrite Hv' in Hv.
  - left. congruence.
  - right. rewrite (merge_tensors_recorded _ _ axis Hst) in Hv.
    apply first_dim_elem in Hv. by eapply positions_elem.
Qed.

Lemma merged_values_come_from_input_witness :
  ShardingMergeForTensors [("ab", [3; 5])]
  = Ok (list_to_map [("a", 3); ("b", 5)])
  /\ (list_to_map [("a", 3); ("b", 5)] : gmap string Z) !! "b" = Some 5
  /\ (5 = -1 \/ exists pair, pair ∈ [("ab", [3; 5])] /\ 5 ∈ pair.2).
Proof.
  split; [reflexivity|]. split; [reflexivity|].
  apply (merged_values_come_from_input [("ab", [3; 5])]
           (list_to_map [("a", 3); ("b", 5)]) "b" 5); reflexivity.
Defined.

Lemma ShardingMergeForTensors_injective pairs m a b d :
  in_range pairs ->
  ShardingMergeForTensors pairs = Ok m ->
  m !! a = Some d -> m !! b = Some d -> d <> -1 ->
  a = b.
Proof.
  intros Hr Hm Ha Hb Hd.
  destruct (proj1 (ShardingMergeForTensors_Ok _ _) Hm) as (st & Hst & _).
  assert (linked st) as [Hclaimed _].
  { eapply merge_positions_linked;
      [by apply positions_lengths|by apply merge_tensors_positions_Ok|].
    apply linked_init. }
  destruct (ShardingMergeForTensors_lookup _ _ _ a Hm Hst)
    as [[_ Ha']|[Hna Ha']]; rewrite Ha' in Ha; [congruence|].
  destruct (ShardingMergeForTensors_lookup _ _ _ b Hm Hst)
    as [[_ Hb']|[Hnb Hb']]; rewrite Hb' in Hb; [congruence|].
  destruct (Hclaimed _ _ Ha) as (axes & i & Hk & Hi).
  destruct (Hclaimed _ _ Hb) as (axes' & j & Hk' & Hj).
  assert (axes' = axes) as -> by congruence.
  destruct i as [|i].
  - destruct j as [|j].
    + destruct Hi as [_ <-], Hj as [_ <-]. done.
    + exfalso. apply Hnb. exists d, axes. split; [done|].
      apply demoted_by_occurs. exists (S j). split; [lia|done].
  - exfalso. apply Hna. exists d, axes. split; [done|].
    apply demoted_by_occurs. exists (S i). split; [lia|done].
Qed.

(** X5. When no sharding vector is longer than its notation, no mesh
    dimension other than [-1] is held by two different axes of the
    returned map. *)
Theorem merged_dims_have_one_axis :
  forall pairs m a b d,
    in_range pairs ->
    ShardingMergeForTensors pairs = Ok m ->
    m !! a = Some d -> m !! b = Some d -> d <> -1 ->
    a = b.
Proof. intros pairs m a b d. apply ShardingMergeForTensors_injective. Qed.

Lemma merged_dims_have_one_axis_witness :
  in_range [("ab", [0; 1]); ("c", [1])]
  /\ ShardingMergeForTensors [("ab", [0; 1]); ("c", [1])]
     = Ok (list_to_map [("a", 0); ("b", 1); ("c", -1)])
  /\ "b" = "b".
Proof.
  assert (in_range [("ab", [0; 1]); ("c", [1])]) as Hr.
  { repeat constructor. }
  split; [exact Hr|]. split; [reflexivity|].
  apply (merged_dims_have_one_axis [("ab", [0; 1]); ("c", [1])]
           (list_to_map [("a", 0); ("b", 1); ("c", -1)]) "b" "b" 1 Hr);
    try reflexivity. lia.
Defined.

(** X6. As the code stands, when no sharding vector is longer than its
    notation, an axis that occurs at two positions of the input is
    returned with [-1], whatever the mesh dimensions of its occurrences:
    either it was first recorded with [-1] and stays so, or its second
    claim of the recorded dimension makes the conflict pass demote it. *)
Theorem repeated_axis_is_replicated :
  forall pairs m p1 a d1 p2 d2 p3,
    in_range pairs ->
    ShardingMergeForTensors pairs = Ok m ->
    positions pairs = p1 ++ (a, d1) :: p2 ++ (a, d2) :: p3 ->
    m !! a = Some (-1).
Proof.
  intros pairs m p1 a d1 p2 d2 p3 Hr Hm Hps.
  destruct (proj1 (ShardingMergeForTensors_Ok _ _) Hm) as (st & Hst & _).
  pose proof (merge_tensors_positions_Ok _ _ _ Hst) as Hpos.
  destruct (merge_positions_again _ _ _ _ _ _ _ _ _
              (positions_lengths _ Hr) linked_init Hpos Hps) as [Hrep|Hdem].
  - destruct (ShardingMergeForTensors_lookup _ _ _ a Hm Hst)
      as [[_ Hv]|[_ Hv]]; rewrite Hv; [done|]. done.
  - destruct (ShardingMergeForTensors_lookup _ _ _ a Hm Hst)
      as [[_ Hv]|[Hn _]]; [done|]. by destruct Hn.
Qed.

Lemma repeated_axis_is_replicated_witness :
  in_range [("ij", [0; 1]); ("ij", [0; 1])]
  /\ ShardingMergeForTensors [("ij", [0; 1]); ("ij", [0; 1])]
     = Ok (list_to_map [("i", -1); ("j", -1)])
  /\ (list_to_map [("i", -1); ("j", -1)] : gmap string Z) !! "j" = Some (-1).
Proof.
  assert (in_range [("ij", [0; 1]); ("ij", [0; 1])]) as Hr.
  { repeat constructor. }
  split; [exact Hr|]. split; [reflexivity|].
  apply (repeated_axis_is_replicated [("ij", [0; 1]); ("ij", [0; 1])]
           (list_to_map [("i", -1); ("j", -1)])
           [("i", 0)] "j" 1 [("i", 0)] 1 [] Hr); reflexivity.
Defined.

(** ** An axis that occurs once *)

Lemma merge_axis_claim_keys a d st st' k :
  linked st ->
  merge_axis a d st = Ok st' ->
  is_Some (dim_to_axis_map st' !! k) ->
  is_Some (dim_to_axis_map st !! k) \/ k = d.
Proof.
  intros [Hclaimed _] H Hk.
  apply merge_axis_Ok_inv in H as (md & Hmd & Hd2a). rewrite Hd2a in Hk.
  destruct (decide (md = k)) as [->|Hne];
    [|rewrite lookup_insert_ne in Hk by done; by left].
  destruct (axis_to_dim_map st !! a) as [r|] eqn:Ha; [|by right].
  apply ShardingMergeForAxis_Ok_inv in Hmd as [Hk' _].
  case_decide; [|by right]. subst k.
  left. destruct (Hclaimed _ _ Ha) as (axes & i & Hr & _). eauto.
Qed.

Lemma merge_positions_claim_keys ps st st' k :
  Forall (fun p : string * Z => String.length p.1 = 1%nat) ps ->
  linked st ->
  merge_positions ps st = Ok st' ->
  is_Some (dim_to_axis_map st' !! k) ->
  is_Some (dim_to_axis_map st !! k) \/ k ∈ ps.*2.
Proof.
  intros Hps. revert st.
  induction Hps as [|[a d] ps Ha _ IH]; intros st Hl; simpl.
  - intros [= <-]. by left.
  - intros H Hk. apply bind_Ok in H as (st1 & H1 & H).
    destruct (IH st1 (merge_axis_linked _ _ _ _ Ha H1 Hl) H Hk) as [Hk1|Hin].
    + destruct (merge_axis_claim_keys _ _ _ _ _ Hl H1 Hk1) as [Hold| ->].
      * by left.
      * right. left.
    + right. by right.
Qed.

Lemma merge_positions_not_demoted ps st st' a :
  Forall (fun p : string * Z => (String.length p.1 <= 1)%nat) ps ->
  a ∉ ps.*1 ->
  merge_positions ps st = Ok st' ->
  demoted (dim_to_axis_map st') a -> demoted (dim_to_axis_map st) a.
Proof.
  intros Hps. revert st.
  induction Hps as [|[b e] ps Hb _ IH]; intros st Ha; simpl.
  - by intros [= <-].
  - simpl in Ha. apply not_elem_of_cons in Ha as [Hne Ha].
    intros H Hd. apply bind_Ok in H as (st1 & H1 & H).
    destruct (IH st1 Ha H Hd) as (k & axes' & Hk & Hdem).
    apply demoted_by_occurs in Hdem as (i & Hi & Hocc).
    destruct (merge_axis_claims_inv _ _ _ _ _ _ _ _ Hb H1 Hk Hocc)
      as [(axes & Hold & Hocc')|Heq]; [|done].
    exists k, axes. split; [done|]. apply demoted_by_occurs. eauto.
Qed.

Lemma ShardingMergeForTensors_single pairs m p1 a d p2 :
  in_range pairs ->
  ShardingMergeForTensors pairs = Ok m ->
  positions pairs = p1 ++ (a, d) :: p2 ->
  a ∉ p1.*1 -> a ∉ p2.*1 -> d ∉ p1.*2 ->
  m !! a = Some d.
Proof.
  intros Hr Hm Hps Hp1 Hp2 Hd.
  destruct (proj1 (ShardingMergeForTensors_Ok _ _) Hm) as (st & Hst & _).
  pose proof (merge_tensors_positions_Ok _ _ _ Hst) as Hpos.
  pose proof (positions_lengths _ Hr) as Hlen.
  assert (axis_to_dim_map st !! a = Some d) as Hrec.
  { rewrite (merge_tensors_recorded _ _ a Hst), Hps.
    apply first_dim_Some. eauto. }
  rewrite Hps in Hpos, Hlen.
  apply Forall_app in Hlen as [Hl1 Hlen]. apply Forall_cons in Hlen as [Ha Hl2].
  rewrite merge_positions_app in Hpos. apply bind_Ok in Hpos as (st1 & H1 & H).
  simpl in H. apply bind_Ok in H as (st2 & H2 & H3).
  pose proof (merge_positions_linked _ _ _ Hl1 H1 linked_init) as Hlk1.
  assert (claims_recorded st1) as Hcr1.
  { eapply merge_positions_claims_recorded; [|exact H1|apply claims_recorded_init].
    eapply Forall_impl; [exact Hl1|]. simpl. intros; lia. }
  assert (axis_to_dim_map st1 !! a = None) as Ha1.
  { rewrite (merge_positions_recorded _ _ _ a H1). unfold recorded_after. simpl.
    rewrite lookup_empty. by apply first_dim_None. }
  assert (dim_to_axis_map st1 !! d = None) as Hd1.
  { apply eq_None_not_Some. intros Hsome.
    destruct (merge_positions_claim_keys _ _ _ _ Hl1 linked_init H1 Hsome)
      as [Hinit|Hin]; [|done].
    simpl in Hinit. rewrite lookup_empty in Hinit. by destruct Hinit. }
  rewrite (merge_axis_absent _ _ _ Ha1 Hd1) in H2. injection H2 as <-.
  destruct (ShardingMergeForTensors_lookup _ _ _ a Hm Hst)
    as [[Hdem _]|[_ Hv]]; [|by rewrite Hv].
  exfalso.
  assert (Forall (fun p : string * Z => (String.length p.1 <= 1)%nat) p2) as Hl2'.
  { eapply Forall_impl; [exact Hl2|]. simpl. intros; lia. }
  destruct (merge_positions_not_demoted _ _ _ _ Hl2' Hp2 H3 Hdem)
    as (k & axes & Hk & Hby).
  apply demoted_by_occurs in Hby as (i & Hi & Hocc). simpl in Hk.
  destruct (decide (d = k)) as [->|Hne].
  - rewrite lookup_insert_eq in Hk. injection Hk as <-.
    apply occurs_single in Hocc as [-> _]; [lia|done].
  - rewrite lookup_insert_ne in Hk by done.
    destruct (Hcr1 _ _ _ _ Hk Hocc) as [v Hv]. congruence.
Qed.

(** X7. When no sharding vector is longer than its notation, an axis
    that occurs at one position only, with a mesh dimension that stands
    at no earlier position, is returned with that mesh dimension: later
    claims of the dimension by other axes do not take it away. *)
Theorem single_first_claimant_keeps_dim :
  forall pairs m p1 a d p2,
    in_range pairs ->
    ShardingMergeForTensors pairs = Ok m ->
    positions pairs = p1 ++ (a, d) :: p2 ->
    a ∉ p1.*1 -> a ∉ p2.*1 -> d ∉ p1.*2 ->
    m !! a = Some d.
Proof. intros pairs m p1 a d p2. apply ShardingMergeForTensors_single. Qed.

Lemma single_first_claimant_keeps_dim_witness :
  in_range [("ab", [0; 1]); ("cd", [1; 0])]
  /\ ShardingMergeForTensors [("ab", [0; 1]); ("cd", [1; 0])]
     = Ok (list_to_map [("a", 0); ("b", 1); ("c", -1); ("d", -1)])
  /\ (list_to_map [("a", 0); ("b", 1); ("c", -1); ("d", -1)] : gmap string Z)
       !! "b" = Some 1.
Proof.
  assert (in_range [("ab", [0; 1]); ("cd", [1; 0])]) as Hr.
  { repeat constructor. }
  split; [exact Hr|]. split; [reflexivity|].
  apply (single_first_claimant_keeps_dim [("ab", [0; 1]); ("cd", [1; 0])]
           (list_to_map [("a", 0); ("b", 1); ("c", -1); ("d", -1)])
           [("a", 0)] "b" 1 [("c", 1); ("d", 0)] Hr);
    try reflexivity.
  - intros [[=]|[]%elem_of_nil]%elem_of_cons.
  - intros [[=]|[[=]|[]%elem_of_nil]%elem_of_cons]%elem_of_cons.
  - intros [[=]|[]%elem_of_nil]%elem_of_cons.
Defined.

(** ** Laws of the pairwise rule *)

(** X1. In [ShardingMergeForAxis] the value [-1] is an identity on both
    sides, equal mesh dimensions merge to themselves, and exchanging the
    two mesh dimensions gives the same outcome: the same value, or a
    failure in both orders. *)
Theorem ShardingMergeForAxis_symmetric_with_identity :
  (forall axis d,
      ShardingMergeForAxis axis d (-1) = Ok d
      /\ ShardingMergeForAxis axis (-1) d = Ok d
      /\ ShardingMergeForAxis axis d d = Ok d)
  /\ (forall axis d1 d2 r,
         ShardingMergeForAxis axis d1 d2 = Ok r
         <-> ShardingMergeForAxis axis d2 d1 = Ok r)
  /\ (forall axis d1 d2,
         failed (ShardingMergeForAxis axis d1 d2)
         <-> failed (ShardingMergeForAxis axis d2 d1)).
Proof.
  split; [|split].
  - intros axis d. split; [|split].
    + apply ShardingMergeForAxis_replicated_r.
    + apply ShardingMergeForAxis_replicated_l.
    + apply ShardingMergeForAxis_same.
  - intros axis d1 d2 r. unfold ShardingMergeForAxis.
    repeat case_decide; split; intros [= <-]; congruence.
  - intros axis d1 d2. rewrite !ShardingMergeForAxis_failed. split.
    + intros (? & ? & ?). auto.
    + intros (? & ? & ?). auto.
Qed.

(** X2. [ShardingMergeForAxis] is associative as far as values go:
    merging three mesh dimensions of an axis from the left returns a
    value exactly when merging them from the right returns that value. *)
Theorem ShardingMergeForAxis_associative :
  forall axis d1 d2 d3 r,
    (x <- ShardingMergeForAxis axis d1 d2;; ShardingMergeForAxis axis x d3)
    = Ok r
    <-> (y <- ShardingMergeForAxis axis d2 d3;; ShardingMergeForAxis axis d1 y)
        = Ok r.
Proof.
  intros axis d1 d2 d3 r. unfold ShardingMergeForAxis.
  repeat (case_decide; simpl); split; intros Hr;
    try discriminate; try (injection Hr as <-); subst;
    try congruence; try lia; f_equal; lia.
Qed.

(** ** Notations and sharding vectors of different lengths *)

Lemma merge_tensor_overrun notation i dims st :
  (String.length notation < i)%nat -> dims <> [] ->
  merge_tensor notation i dims st = Err std_out_of_range.
Proof.
  intros Hi Hd. destruct dims as [|d dims]; [done|]. simpl.
  unfold substr. by rewrite decide_False by lia.
Qed.

Lemma merge_tensor_too_long notation dims st :
  (String.length notation + 2 <= length dims)%nat ->
  failed (merge_tensor notation 0 dims st).
Proof.
  intros Hlen.
  rewrite (merge_tensor_split notation 0 (String.length notation + 1) dims st).
  destruct (merge_tensor notation 0 (take _ dims) st) as [st1|e]; simpl; [|auto].
  rewrite merge_tensor_overrun; [auto|lia|].
  intros Hnil%(f_equal length). rewrite length_drop in Hnil. simpl in Hnil. lia.
Qed.

(** X8. A sharding vector at least two entries longer than its notation
    makes the merge fail, wherever the pair stands in the input: the loop
    runs over the sharding vector and [substr] is asked for a position
    beyond the end of the notation.  No map is returned. *)
Theorem overlong_sharding_vector_fails :
  forall pairs pair,
    pair ∈ pairs ->
    (String.length pair.1 + 2 <= length pair.2)%nat ->
    failed (ShardingMergeForTensors pairs).
Proof.
  intros pairs [n dims] Hin Hlen. simpl in Hlen.
  apply list_elem_of_split in Hin as (before & after & ->).
  apply ShardingMergeForTensors_failed.
  rewrite merge_tensors_app.
  destruct (merge_tensors before init_state) as [st0|e]; simpl; [|auto].
  pose proof (merge_tensor_too_long n dims st0 Hlen) as [e He].
  rewrite He. simpl. auto.
Qed.

Lemma overlong_sharding_vector_fails_witness :
  ("a", [0; -1; -1]) ∈ [("ij", [0; 1]); ("a", [0; -1; -1])]
  /\ ShardingMergeForTensors [("ij", [0; 1]); ("a", [0; -1; -1])]
     = Err std_out_of_range
  /\ failed (ShardingMergeForTensors [("ij", [0; 1]); ("a", [0; -1; -1])]).
Proof.
  assert (("a", [0; -1; -1]) ∈ [("ij", [0; 1]); ("a", [0; -1; -1])]) as Hin.
  { right. left. }
  split; [exact Hin|]. split; [reflexivity|].
  apply (overlong_sharding_vector_fails _ _ Hin). simpl. lia.
Defined.

Lemma positions_from_lookup notation i dims k d :
  dims !! k = Some d ->
  (substring (i + k) 1 notation, d) ∈ positions_from notation i dims.
Proof.
  revert i k. induction dims as [|e dims IH]; intros i k; [done|].
  destruct k as [|k]; simpl.
  - intros [= ->]. rewrite Nat.add_0_r. left.
  - intros Hk. right. rewrite <- Nat.add_succ_comm. by apply IH.
Qed.

Lemma positions_from_app_notation notation extra i dims :
  (i + length dims <= String.length notation)%nat ->
  positions_from (notation +:+ extra) i dims = positions_from notation i dims.
Proof.
  revert i. induction dims as [|d dims IH]; intros i Hlen; simpl in *; [done|].
  rewrite substring_1_app_l by lia. f_equal. apply IH. lia.
Qed.

(** X10. The characters of a notation beyond the length of its sharding
    vector play no part: extending the notations of an input in which no
    sharding vector is longer than its notation leaves the outcome of the
    merge unchanged. *)
Theorem extra_notation_characters_ignored :
  forall pairs pairs',
    Forall2 (fun pair pair' =>
               (length pair.2 <= String.length pair.1)%nat
               /\ pair'.2 = pair.2
               /\ exists extra, pair'.1 = pair.1 +:+ extra) pairs pairs' ->
    ShardingMergeForTensors pairs' = ShardingMergeForTensors pairs.
Proof.
  intros pairs pairs' Hrel.
  assert (in_range pairs /\ in_range pairs'
          /\ positions pairs' = positions pairs) as (Hr & Hr' & Hpos).
  { unfold in_range, positions.
    induction Hrel as [|[n dims] [n' dims'] pairs pairs'
                         (Hlen & Hdims & extra & Hn) _ IH]; simpl in *.
    - repeat split; constructor.
    - destruct IH as (Hr & Hr' & Hpos). subst n' dims'.
      split; [by constructor|]. split.
      + constructor; [|done]. simpl. rewrite string_app_length. lia.
      + rewrite Hpos. f_equal. by apply positions_from_app_notation. }
  unfold ShardingMergeForTensors.
  by rewrite !merge_tensors_positions_in_range, Hpos.
Qed.

Lemma extra_notation_characters_ignored_witness :
  ShardingMergeForTensors [("ijk", [0; 1]); ("jxyz", [1])]
  = ShardingMergeForTensors [("ij", [0; 1]); ("j", [1])]
  /\ ShardingMergeForTensors [("ij", [0; 1]); ("j", [1])]
     = Ok (list_to_map [("i", 0); ("j", -1)]).
Proof.
  split; [|reflexivity].
  apply (extra_notation_characters_ignored
           [("ij", [0; 1]); ("j", [1])] [("ijk", [0; 1]); ("jxyz", [1])]).
  repeat constructor; simpl; try lia.
  - by exists "k".
  - by exists "xyz".
Defined.

(** ** The error of a failed merge *)

Lemma merge_axis_Err a d st e :
  merge_axis a d st = Err e ->
  exists r, axis_to_dim_map st !! a = Some r
         /\ d <> r /\ d <> -1 /\ r <> -1
         /\ e = Unimplemented conflict_fmt [ArgStr a; ArgInt d; ArgInt r].
Proof.
  intros H.
  assert (failed (merge_axis a d st)) as Hf by (rewrite H; auto).
  apply merge_axis_failed in Hf as (r & Hr & Hne & Hd & Hr').
  exists r. repeat split; try done.
  unfold merge_axis in H. rewrite Hr in H.
  rewrite ShardingMergeForAxis_clash in H by done. simpl in H. congruence.
Qed.

Lemma merge_positions_Err ps st e :
  merge_positions ps st = Err e ->
  exists pre a d post r st_pre,
    ps = pre ++ (a, d) :: post
    /\ merge_positions pre st = Ok st_pre
    /\ axis_to_dim_map st_pre !! a = Some r
    /\ d <> r /\ d <> -1 /\ r <> -1
    /\ e = Unimplemented conflict_fmt [ArgStr a; ArgInt d; ArgInt r].
Proof.
  revert st. induction ps as [|[a0 d0] ps IH]; intros st; simpl; [done|].
  destruct (merge_axis a0 d0 st) as [st1|e0] eqn:H1; simpl.
  - intros H. destruct (IH _ H) as (pre & a & d & post & r & sp & -> & Hpre & Hrest).
    exists ((a0, d0) :: pre), a, d, post, r, sp. split; [done|].
    split; [|done]. simpl. by rewrite H1.
  - intros [= <-]. apply merge_axis_Err in H1 as (r & Hr & ? & ? & ? & ?).
    exists [], a0, d0, ps, r, st. by repeat split.
Qed.

(** X11. When no sharding vector is longer than its notation, a failed
    merge carries the error of [ShardingMergeForAxis] for the first
    position in input order that conflicts: its format arguments are the
    axis of that position, the mesh dimension of that position and the
    mesh dimension of the first occurrence of the axis, in this order. *)
Theorem merge_error_reports_first_conflict :
  forall pairs e,
    in_range pairs ->
    ShardingMergeForTensors pairs = Err e ->
    exists pre a d post r,
      positions pairs = pre ++ (a, d) :: post
      /\ ~ clash pre
      /\ first_dim a pre = Some r
      /\ d <> r /\ d <> -1 /\ r <> -1
      /\ e = Unimplemented conflict_fmt [ArgStr a; ArgInt d; ArgInt r].
Proof.
  intros pairs e Hr He. unfold ShardingMergeForTensors in He.
  rewrite merge_tensors_positions_in_range in He by done.
  destruct (merge_positions (positions pairs) init_state) as [st|e'] eqn:Hpos;
    simpl in He; [done|]. injection He as ->.
  apply merge_positions_Err in Hpos
    as (pre & a & d & post & r & sp & Hps & Hpre & Hrec & Hrest).
  exists pre, a, d, post, r. split; [done|]. split; [|split; [|done]].
  - intros Hc%merge_positions_failed_init. rewrite Hpre in Hc.
    by apply failed_Ok in Hc.
  - rewrite (merge_positions_recorded _ _ _ a Hpre) in Hrec.
    unfold recorded_after in Hrec. simpl in Hrec.
    by rewrite lookup_empty in Hrec.
Qed.

Lemma merge_error_reports_first_conflict_witness :
  in_range [("ab", [0; 1]); ("ba", [2; 3])]
  /\ ShardingMergeForTensors [("ab", [0; 1]); ("ba", [2; 3])]
     = Err (Unimplemented conflict_fmt [ArgStr "b"; ArgInt 2; ArgInt 1])
  /\ (exists pre a d post r,
        positions [("ab", [0; 1]); ("ba", [2; 3])] = pre ++ (a, d) :: post
        /\ ~ clash pre
        /\ first_dim a pre = Some r
        /\ d <> r /\ d <> -1 /\ r <> -1
        /\ Unimplemented conflict_fmt [ArgStr "b"; ArgInt 2; ArgInt 1]
           = Unimplemented conflict_fmt [ArgStr a; ArgInt d; ArgInt r]).
Proof.
  assert (in_range [("ab", [0; 1]); ("ba", [2; 3])]) as Hr.
  { repeat constructor. }
  split; [exact Hr|]. split; [reflexivity|].
  apply (merge_error_reports_first_conflict _ _ Hr). reflexivity.
Defined.

(** ** Enumeration order of the unordered maps *)

(** X12. The map returned by [ShardingMergeForTensors] does not depend on
    the order in which the conflict pass enumerates [dim_to_axis_map]:
    running the pass over any enumeration of its entries gives the
    returned map. *)
Theorem conflict_pass_order_irrelevant :
  forall pairs st entries,
    merge_tensors pairs init_state = Ok st ->
    enumerates entries (dim_to_axis_map st) ->
    ShardingMergeForTensors pairs
    = Ok (resolve_conflicts entries (axis_to_dim_map st)).
Proof.
  intros pairs st entries Hst He. unfold ShardingMergeForTensors.
  rewrite Hst. simpl. f_equal. symmetry.
  by apply resolve_conflicts_enumeration.
Qed.

Lemma conflict_pass_order_irrelevant_witness :
  merge_tensors [("ab", [0; 1]); ("cd", [1; 0])] init_state
  = Ok (MergeState (list_to_map [("a", 0); ("b", 1); ("c", 1); ("d", 0)])
                   (list_to_map [(0, "ad"); (1, "bc")]))
  /\ enumerates [(1, "bc"); (0, "ad")]
       (list_to_map [(0, "ad"); (1, "bc")] : gmap Z string)
  /\ ShardingMergeForTensors [("ab", [0; 1]); ("cd", [1; 0])]
     = Ok (resolve_conflicts [(1, "bc"); (0, "ad")]
             (list_to_map [("a", 0); ("b", 1); ("c", 1); ("d", 0)])).
Proof.
  assert (enumerates [(1, "bc"); (0, "ad")]
            (list_to_map [(0, "ad"); (1, "bc")] : gmap Z string)) as He.
  { unfold enumerates. vm_compute. first [reflexivity | apply perm_swap]. }
  split; [reflexivity|]. split; [exact He|].
  exact (conflict_pass_order_irrelevant [("ab", [0; 1]); ("cd", [1; 0])]
           (MergeState (list_to_map [("a", 0); ("b", 1); ("c", 1); ("d", 0)])
                       (list_to_map [(0, "ad"); (1, "bc")]))
           [(1, "bc"); (0, "ad")] eq_refl He).
Defined.

(** X13. Whatever the order in which [in_axis_to_dim_map] is enumerated,
    every mesh dimension returned by the partial-dimension loop is the
    value of an entry of the map and is non-negative, and the result has
    at most as many entries as the map. *)
Theorem partial_dims_are_nonnegative_map_values :
  forall (m : gmap string Z) out_axis entries,
    enumerates entries m ->
    (forall d, d ∈ partial_dims_loop entries out_axis ->
               0 <= d /\ exists axis, m !! axis = Some d)
    /\ (length (partial_dims_loop entries out_axis) <= size m)%nat.
Proof.
  intros m out_axis entries He. split.
  - intros d Hd. rewrite (partial_dims_loop_enumeration _ _ _ He) in Hd.
    apply ResoluteOutputPartialDimension_elem in Hd as (axis & Hm & _ & Hgt).
    split; [lia|eauto].
  - rewrite partial_dims_loop_filter, length_fmap.
    etrans; [apply length_filter|].
    unfold enumerates in He. by rewrite He, length_map_to_list.
Qed.

Lemma partial_dims_are_nonnegative_map_values_witness :
  (forall d,
      d ∈ partial_dims_loop [("j", -1); ("k", 1); ("i", 0)] "ij" ->
      0 <= d
      /\ exists axis,
           (list_to_map [("i", 0); ("k", 1); ("j", -1)] : gmap string Z)
             !! axis = Some d)
  /\ (length (partial_dims_loop [("j", -1); ("k", 1); ("i", 0)]%Z "ij")
      <= size (list_to_map [("i", 0); ("k", 1); ("j", -1)]%Z : gmap string Z))%nat.
Proof.
  apply (partial_dims_are_nonnegative_map_values
           (list_to_map [("i", 0); ("k", 1); ("j", -1)]) "ij"
           [("j", -1); ("k", 1); ("i", 0)]).
  unfold enumerates. vm_compute.
  first [reflexivity
        | apply perm_swap
        | apply perm_skip; apply perm_swap
        | apply Permutation_rev
        | (etrans; [apply perm_swap|]; apply perm_skip; apply perm_swap)
        | (etrans; [apply perm_skip; apply perm_swap|]; apply perm_swap)].
Defined.

(** X14. Two enumerations of the same map make the partial-dimension
    loop return the same mesh dimensions, each as many times, in a
    possibly different order. *)
Theorem partial_dims_permuted_by_enumeration :
  forall (m : gmap string Z) out_axis entries1 entries2,
    enumerates entries1 m -> enumerates entries2 m ->
    partial_dims_loop entries1 out_axis ≡ₚ partial_dims_loop entries2 out_axis.
Proof.
  intros m out_axis entries1 entries2 H1 H2.
  by rewrite (partial_dims_loop_enumeration _ _ _ H1),
    (partial_dims_loop_enumeration _ _ _ H2).
Qed.

Lemma partial_dims_permuted_by_enumeration_witness :
  enumerates [("i", 0); ("j", 2); ("k", 1)]
    (list_to_map [("i", 0); ("k", 1); ("j", 2)] : gmap string Z)
  /\ enumerates [("k", 1); ("j", 2); ("i", 0)]
       (list_to_map [("i", 0); ("k", 1); ("j", 2)] : gmap string Z)
  /\ partial_dims_loop [("i", 0); ("j", 2); ("k", 1)] "ij" = [0; 2]
  /\ partial_dims_loop [("k", 1); ("j", 2); ("i", 0)] "ij" = [2; 0]
  /\ partial_dims_loop [("i", 0); ("j", 2); ("k", 1)] "ij"
     ≡ₚ partial_dims_loop [("k", 1); ("j", 2); ("i", 0)] "ij".
Proof.
  assert (forall (x y z : string * Z) l,
             l = [x; y; z] \/ l = [x; z; y] \/ l = [y; x; z]
             \/ l = [y; z; x] \/ l = [z; x; y] \/ l = [z; y; x] ->
             [x; y; z] ≡ₚ l) as Hperm3.
  { intros x y z l [->|[->|[->|[->|[->| ->]]]]].
    - reflexivity.
    - apply perm_skip, perm_swap.
    - apply perm_swap.
    - etrans; [apply perm_swap|]. apply perm_skip, perm_swap.
    - etrans; [apply perm_skip, perm_swap|]. apply perm_swap.
    - etrans; [apply perm_swap|]. etrans; [apply perm_skip, perm_swap|].
      apply perm_swap. }
  assert (enumerates [("i", 0); ("j", 2); ("k", 1)]
            (list_to_map [("i", 0); ("k", 1); ("j", 2)] : gmap string Z)) as H1.
  { unfold enumerates. apply Hperm3. vm_compute. tauto. }
  assert (enumerates [("k", 1); ("j", 2); ("i", 0)]
            (list_to_map [("i", 0); ("k", 1); ("j", 2)] : gmap string Z)) as H2.
  { unfold enumerates. apply Hperm3. vm_compute. tauto. }
  split; [exact H1|]. split; [exact H2|].
  split; [reflexivity|]. split; [reflexivity|].
  exact (partial_dims_permuted_by_enumeration _ "ij" _ _ H1 H2).
Defined.

(** ** The partial-dimension loop on a merged map *)

(** X15. On a map returned by [ShardingMergeForTensors] for an input in
    which no sharding vector is longer than its notation, the
    partial-dimension loop returns no mesh dimension twice, whatever the
    output notation and the enumeration order. *)
Theorem partial_dims_of_merged_map_distinct :
  forall pairs m out_axis entries,
    in_range pairs ->
    ShardingMergeForTensors pairs = Ok m ->
    enumerates entries m ->
    NoDup (partial_dims_loop entries out_axis).
Proof.
  intros pairs m out_axis entries Hr Hm He. unfold enumerates in He.
  rewrite partial_dims_loop_filter.
  assert (NoDup entries) as Hnd.
  { rewrite He. apply NoDup_map_to_list. }
  apply NoDup_fmap_2_strong; [|by apply NoDup_filter].
  intros [a d] [b d'] Ha Hb Heq. simpl in Heq. subst d'.
  apply list_elem_of_filter in Ha as [[_ Hgt] Ha].
  apply list_elem_of_filter in Hb as [_ Hb].
  rewrite He in Ha, Hb.
  apply elem_of_map_to_list in Ha, Hb. simpl in Hgt.
  f_equal. eapply (ShardingMergeForTensors_injective pairs m a b d); try done.
  lia.
Qed.

Lemma partial_dims_of_merged_map_distinct_witness :
  in_range [("ik", [0; 1]); ("mj", [1; 2])]
  /\ ShardingMergeForTensors [("ik", [0; 1]); ("mj", [1; 2])]
     = Ok (list_to_map [("i", 0); ("k", 1); ("m", -1); ("j", 2)])
  /\ ResoluteOutputPartialDimension
       (list_to_map [("i", 0); ("k", 1); ("m", -1); ("j", 2)]) "imj"
     ≡ₚ [0; 2]
  /\ NoDup (ResoluteOutputPartialDimension
              (list_to_map [("i", 0); ("k", 1); ("m", -1); ("j", 2)]) "imj").
Proof.
  assert (in_range [("ik", [0; 1]); ("mj", [1; 2])]) as Hr.
  { repeat constructor. }
  split; [exact Hr|]. split; [reflexivity|]. split.
  - vm_compute. first [reflexivity | apply perm_swap].
  - assert (enumerates
              (map_to_list
                 (list_to_map [("i", 0); ("k", 1); ("m", -1); ("j", 2)]
                  : gmap string Z))
              (list_to_map [("i", 0); ("k", 1); ("m", -1); ("j", 2)])) as He.
    { unfold enumerates. reflexivity. }
    exact (partial_dims_of_merged_map_distinct
             [("ik", [0; 1]); ("mj", [1; 2])]
             (list_to_map [("i", 0); ("k", 1); ("m", -1); ("j", 2)])
             "imj" _ Hr eq_refl He).
Defined.

(** ** Longer inputs *)

(** X16. A conflict is never repaired by further tensors: when the merge
    of an input fails, the merge of that input followed by any other
    pairs fails with the same error. *)
Theorem failure_survives_more_tensors :
  forall before after e,
    ShardingMergeForTensors before = Err e ->
    ShardingMergeForTensors (before ++ after) = Err e.
Proof.
  intros before after e. unfold ShardingMergeForTensors.
  rewrite merge_tensors_app.
  by destruct (merge_tensors before init_state) as [st|e'].
Qed.

Lemma failure_survives_more_tensors_witness :
  ShardingMergeForTensors [("a", [0]); ("a", [1])]
  = Err (Unimplemented conflict_fmt [ArgStr "a"; ArgInt 1; ArgInt 0])
  /\ ShardingMergeForTensors ([("a", [0]); ("a", [1])] ++ [("b", [2; 3; 4])])
     = Err (Unimplemented conflict_fmt [ArgStr "a"; ArgInt 1; ArgInt 0]).
Proof.
  split; [reflexivity|].
  apply (failure_survives_more_tensors [("a", [0]); ("a", [1])]).
  reflexivity.
Defined.

(** X17. Further tensors change the value of an axis only by replicating
    it: when the merge of an input and the merge of that input followed
    by other pairs both return a map, an axis of the first map has in the
    second either the same mesh dimension or [-1]. *)
Theorem more_tensors_only_replicate :
  forall before after m m' axis v,
    ShardingMergeForTensors before = Ok m ->
    ShardingMergeForTensors (before ++ after) = Ok m' ->
    m !! axis = Some v ->
    m' !! axis = Some v \/ m' !! axis = Some (-1).
Proof.
  intros before after m m' axis v Hm Hm' Hv.
  destruct (proj1 (ShardingMergeForTensors_Ok _ _) Hm) as (st & Hst & _).
  destruct (proj1 (ShardingMergeForTensors_Ok _ _) Hm') as (st' & Hst' & _).
  pose proof Hst' as Hafter. rewrite merge_tensors_app, Hst in Hafter.
  simpl in Hafter. apply merge_tensors_positions_Ok in Hafter.
  destruct (ShardingMergeForTensors_lookup _ _ _ axis Hm' Hst')
    as [[_ Hv']|[Hnd Hv']]; [by right|].
  destruct (ShardingMergeForTensors_lookup _ _ _ axis Hm Hst)
    as [[Hd _]|[_ Hv0]].
  - exfalso. apply Hnd. by eapply merge_positions_demoted.
  - left. rewrite Hv'. rewrite Hv0 in Hv. by eapply merge_positions_keeps.
Qed.

Lemma more_tensors_only_replicate_witness :
  ShardingMergeForTensors [("ab", [0; 1])]
  = Ok (list_to_map [("a", 0); ("b", 1)])
  /\ ShardingMergeForTensors ([("ab", [0; 1])] ++ [("cb", [0; 1])])
     = Ok (list_to_map [("a", 0); ("b", -1); ("c", -1)])
  /\ ((list_to_map [("a", 0); ("b", -1); ("c", -1)] : gmap string Z) !! "b"
      = Some 1
      \/ (list_to_map [("a", 0); ("b", -1); ("c", -1)] : gmap string Z) !! "b"
         = Some (-1)).
Proof.
  split; [reflexivity|]. split; [reflexivity|].
  apply (more_tensors_only_replicate [("ab", [0; 1])] [("cb", [0; 1])]
           (list_to_map [("a", 0); ("b", 1)])); reflexivity.
Defined.

(** X18. The code takes every mesh dimension other than [-1] as concrete,
    negative ones included: when no sharding vector is longer than its
    notation, the merge fails exactly when some axis first occurs with a
    mesh dimension other than [-1] and occurs later with another mesh
    dimension other than [-1]. *)
Theorem merge_fails_iff_clash :
  forall pairs,
    in_range pairs ->
    failed (ShardingMergeForTensors pairs) <-> clash (positions pairs).
Proof.
  intros pairs Hr.
  rewrite ShardingMergeForTensors_failed, merge_tensors_positions_in_range
    by done.
  apply merge_positions_failed_init.
Qed.

Lemma merge_fails_iff_clash_witness :
  in_range [("ab", [-2; 1]); ("a", [-3])]
  /\ ShardingMergeForTensors [("ab", [-2; 1]); ("a", [-3])]
     = Err (Unimplemented conflict_fmt [ArgStr "a"; ArgInt (-3); ArgInt (-2)])
  /\ clash (positions [("ab", [-2; 1]); ("a", [-3])]).
Proof.
  assert (in_range [("ab", [-2; 1]); ("a", [-3])]) as Hr.
  { repeat constructor. }
  split; [exact Hr|]. split; [reflexivity|].
  apply (proj1 (merge_fails_iff_clash _ Hr)). eexists. reflexivity.
Defined.

(** ** Sharding vectors at most one entry longer than their notation *)

Lemma merge_tensor_positions_near notation i dims st :
  (i + length dims <= S (String.length notation))%nat ->
  merge_tensor notation i dims st
  = merge_positions (positions_from notation i dims) st.
Proof.
  revert i st. induction dims as [|d dims IH]; intros i st Hlen; simpl in *;
    [done|].
  rewrite substr_in_range by lia. simpl.
  destruct (merge_axis _ d st) as [st1|e]; simpl; [|done].
  apply IH. lia.
Qed.

Lemma merge_tensors_positions_near pairs st :
  near_range pairs ->
  merge_tensors pairs st = merge_positions (positions pairs) st.
Proof.
  intros Hr. revert st.
  induction Hr as [|[n dims] pairs Hlen _ IH]; intros st; simpl; [done|].
  unfold positions in *. simpl in *.
  rewrite merge_positions_app, merge_tensor_positions_near by lia.
  destruct (merge_positions _ st); simpl; [apply IH|done].
Qed.







Lemma one_longer_empty_axis_visited pairs pair :
  pair ∈ pairs ->
  length pair.2 = S (String.length pair.1) ->
  "" ∈ (positions pairs).*1.
Proof.
  destruct pair as [n dims]. simpl. intros Hin Hlen.
  destruct (lookup_lt_is_Some_2 dims (String.length n)) as [d Hd]; [lia|].
  apply list_elem_of_fmap. exists ("", d). split; [done|].
  unfold positions. apply list_elem_of_In, in_flat_map.
  exists (n, dims). split; [by apply list_elem_of_In|].
  apply list_elem_of_In. simpl.
  rewrite <- (substring_1_overflow (String.length n) n) by lia.
  by apply (positions_from_lookup n 0 dims (String.length n) d).
Qed.

Lemma visited_axis_has_entry pairs m axis :
  ShardingMergeForTensors pairs = Ok m ->
  axis ∈ (positions pairs).*1 ->
  is_Some (m !! axis).
Proof.
  intros Hm Hin.
  destruct (proj1 (ShardingMergeForTensors_Ok _ _) Hm) as (st & Hst & _).
  assert (is_Some (axis_to_dim_map st !! axis)) as Hrec.
  { rewrite (merge_tensors_recorded _ _ axis Hst).
    rewrite <- not_eq_None_Some, first_dim_None. tauto. }
  destruct (ShardingMergeForTensors_lookup _ _ _ axis Hm Hst)
    as [[_ Hv]|[_ Hv]]; rewrite Hv; eauto.
Qed.

Lemma near_range_error pairs e :
  near_range pairs ->
  ShardingMergeForTensors pairs = Err e ->
  exists a d r, e = Unimplemented conflict_fmt [ArgStr a; ArgInt d; ArgInt r].
Proof.
  intros Hr He. unfold ShardingMergeForTensors in He.
  rewrite merge_tensors_positions_near in He by done.
  destruct (merge_positions (positions pairs) init_state) as [st|e'] eqn:Hpos;
    simpl in He; [done|]. injection He as ->.
  apply merge_positions_Err in Hpos
    as (pre & a & d & post & r & sp & _ & _ & _ & _ & _ & _ & ->).
  eauto.
Qed.

(** X9. A sharding vector exactly one entry longer than its notation
    raises nothing by itself: [substr] at the end of the notation yields
    the empty string.  When no sharding vector of the input is more than
    one entry longer than its notation, the merge never ends with
    [std::out_of_range], and it returns a map unless some axis clashes;
    and whenever the merge returns a map for an input with such a pair,
    that map has an entry under the empty axis. *)
Theorem one_longer_vector_records_empty_axis :
  forall pairs pair,
    pair ∈ pairs ->
    length pair.2 = S (String.length pair.1) ->
    (forall m, ShardingMergeForTensors pairs = Ok m -> is_Some (m !! ""))
    /\ (near_range pairs ->
        ShardingMergeForTensors pairs <> Err std_out_of_range
        /\ (~ clash (positions pairs) ->
            exists m, ShardingMergeForTensors pairs = Ok m
                      /\ is_Some (m !! ""))).
Proof.
  intros pairs pair Hin Hlen.
  pose proof (one_longer_empty_axis_visited _ _ Hin Hlen) as Hvisited.
  split.
  - intros m Hm. by eapply visited_axis_has_entry.
  - intros Hnear. split.
    + intros He. by destruct (near_range_error _ _ Hnear He) as (a & d & r & ?).
    + intros Hclash.
      destruct (ShardingMergeForTensors pairs) as [m|e] eqn:Hm.
      * exists m. split; [done|]. by eapply visited_axis_has_entry.
      * exfalso. apply Hclash.
        assert (failed (ShardingMergeForTensors pairs)) as Hf
            by (rewrite Hm; auto).
        apply ShardingMergeForTensors_failed in Hf.
        rewrite merge_tensors_positions_near in Hf by done.
        by apply merge_positions_failed_init.
Qed.

Lemma one_longer_vector_records_empty_axis_witness :
  ("c", [2; 1]) ∈ [("ab", [0; 1]); ("c", [2; 1])]
  /\ near_range [("ab", [0; 1]); ("c", [2; 1])]
  /\ ~ clash (positions [("ab", [0; 1]); ("c", [2; 1])])
  /\ ShardingMergeForTensors [("ab", [0; 1]); ("c", [2; 1])]
     = Ok (list_to_map [("a", 0); ("b", 1); ("c", 2); ("", 1)])
  /\ is_Some ((list_to_map [("a", 0); ("b", 1); ("c", 2); ("", 1)]
               : gmap string Z) !! "")
  /\ ShardingMergeForTensors [("ab", [0; 1]); ("c", [2; 1])]
     <> Err std_out_of_range
  /\ (exists m, ShardingMergeForTensors [("ab", [0; 1]); ("c", [2; 1])] = Ok m
                /\ is_Some (m !! "")).
Proof.
  assert (("c", [2; 1]) ∈ [("ab", [0; 1]); ("c", [2; 1])]) as Hin.
  { right. left. }
  assert (near_range [("ab", [0; 1]); ("c", [2; 1])]) as Hnear.
  { repeat constructor. }
  assert (~ clash (positions [("ab", [0; 1]); ("c", [2; 1])])) as Hclash.
  { intros [e He]%merge_positions_failed_init. vm_compute in He. discriminate. }
  destruct (one_longer_vector_records_empty_axis _ _ Hin eq_refl)
    as [Hentry Hrest].
  destruct (Hrest Hnear) as [Hno Hmap].
  split; [exact Hin|]. split; [exact Hnear|]. split; [exact Hclash|].
  split; [reflexivity|]. split; [apply Hentry; reflexivity|].
  split; [exact Hno|]. exact (Hmap Hclash).
Defined.
